(** * Resource locations and the pack build plugin

    A shallow embedding of [lib/resource_location.py] (the
    [ResourceLocation] class) and of [beet_plugins/main.py] (the
    [beet_default] plugin), with the properties of the specification stated
    over it.

    Python [str] values are modelled by [string]; the operations used by the
    sources ([partition], [split], [startswith], [removesuffix], [join] and
    the character classes of the regular expressions) only look at ASCII
    characters, so they act the same way on the UTF-8 bytes of a text as on
    its code points. *)

From Stdlib Require Import String Ascii List Bool Arith Lia.
From stdpp Require Import base option list strings gmap.

Import ListNotations.
Local Open Scope string_scope.
Local Open Scope list_scope.

#[local] Arguments String.append !_ _ / : simpl nomatch.

(** ** Python string operations used by the sources *)

Module PyStr.

(** [s.partition(sep)] for a one-character separator, found or not. *)
Fixpoint cut (sep : ascii) (s : string) : option (string * string) :=
  match s with
  | EmptyString => None
  | String a s' =>
      if Ascii.eqb a sep then Some (EmptyString, s')
      else match cut sep s' with
           | Some (before, after) => Some (String a before, after)
           | None => None
           end
  end.

Definition partition (sep : ascii) (s : string) : string * string * string :=
  match cut sep s with
  | Some (before, after) => (before, String sep EmptyString, after)
  | None => (s, EmptyString, EmptyString)
  end.

(** [s.split(sep)] for a one-character separator: the first piece and the
    remaining pieces, so that the result is never the empty list. *)
Fixpoint split_pieces (sep : ascii) (s : string) : string * list string :=
  match s with
  | EmptyString => (EmptyString, [])
  | String a s' =>
      let '(piece, pieces) := split_pieces sep s' in
      if Ascii.eqb a sep then (EmptyString, piece :: pieces)
      else (String a piece, pieces)
  end.

Definition split (sep : ascii) (s : string) : list string :=
  let '(piece, pieces) := split_pieces sep s in piece :: pieces.

(** [s.startswith(c)] for a one-character prefix. *)
Definition startswith (c : ascii) (s : string) : bool :=
  match s with
  | EmptyString => false
  | String a _ => Ascii.eqb a c
  end.

(** [s.removesuffix(c)] for a one-character suffix: the last character is
    dropped when it is [c], and the text is returned unchanged otherwise. *)
Fixpoint removesuffix (c : ascii) (s : string) : string :=
  match s with
  | EmptyString => EmptyString
  | String a EmptyString => if Ascii.eqb a c then EmptyString else s
  | String a s' => String a (removesuffix c s')
  end.

(** [sep.join(pieces)]. *)
Fixpoint join (sep : string) (pieces : list string) : string :=
  match pieces with
  | [] => EmptyString
  | [p] => p
  | p :: rest => p ++ sep ++ join sep rest
  end.

(** Truth value of a text: every text but the empty one is true. *)
Definition truthy (s : string) : bool :=
  match s with EmptyString => false | String _ _ => true end.

(** Does the character occur in the text? *)
Fixpoint mem (c : ascii) (s : string) : bool :=
  match s with
  | EmptyString => false
  | String a s' => Ascii.eqb a c || mem c s'
  end.

(** Every character of the text satisfies the test. *)
Fixpoint all (p : ascii -> bool) (s : string) : bool :=
  match s with
  | EmptyString => true
  | String a s' => p a && all p s'
  end.

End PyStr.

(** ** Regular expressions

    The patterns of the sources are written [^body$] and used through
    [Pattern.match].  The bodies are embedded as terms of [regex] and matched
    with Brzozowski derivatives; [re_match] adds what the two anchors mean
    for [match]: the body has to cover the text from its start up to its
    end, or up to a line feed that is the last character of the text (in
    Python [$] also matches just before a final line feed). *)

Module Re.

Inductive regex : Type :=
| Nothing
| Epsilon
| Class (p : ascii -> bool)
| Cat (r1 r2 : regex)
| Alt (r1 r2 : regex)
| Star (r : regex).

(** [r+] *)
Definition Plus (r : regex) : regex := Cat r (Star r).

Fixpoint nullable (r : regex) : bool :=
  match r with
  | Nothing => false
  | Epsilon => true
  | Class _ => false
  | Cat r1 r2 => nullable r1 && nullable r2
  | Alt r1 r2 => nullable r1 || nullable r2
  | Star _ => true
  end.

Fixpoint deriv (c : ascii) (r : regex) : regex :=
  match r with
  | Nothing => Nothing
  | Epsilon => Nothing
  | Class p => if p c then Epsilon else Nothing
  | Cat r1 r2 =>
      if nullable r1 then Alt (Cat (deriv c r1) r2) (deriv c r2)
      else Cat (deriv c r1) r2
  | Alt r1 r2 => Alt (deriv c r1) (deriv c r2)
  | Star r1 => Cat (deriv c r1) (Star r1)
  end.

(** The body covers the whole text. *)
Fixpoint fullmatch (r : regex) (s : string) : bool :=
  match s with
  | EmptyString => nullable r
  | String c s' => fullmatch (deriv c r) s'
  end.

Definition line_feed : ascii := ascii_of_nat 10.

(** The text without its last character, when that one is a line feed. *)
Fixpoint chop_line_feed (s : string) : option string :=
  match s with
  | EmptyString => None
  | String a EmptyString =>
      if Ascii.eqb a line_feed then Some EmptyString else None
  | String a s' =>
      match chop_line_feed s' with
      | Some t => Some (String a t)
      | None => None
      end
  end.

(** [re.compile("^body$").match(s)] is not [None]. *)
Definition re_match (body : regex) (s : string) : bool :=
  fullmatch body s
  || match chop_line_feed s with
     | Some s' => fullmatch body s'
     | None => false
     end.

(** The words of a regular expression. *)
Inductive lang : regex -> string -> Prop :=
| lang_eps : lang Epsilon EmptyString
| lang_class p c : p c = true -> lang (Class p) (String c EmptyString)
| lang_cat r1 r2 s1 s2 :
    lang r1 s1 -> lang r2 s2 -> lang (Cat r1 r2) (s1 ++ s2)
| lang_alt_l r1 r2 s : lang r1 s -> lang (Alt r1 r2) s
| lang_alt_r r1 r2 s : lang r2 s -> lang (Alt r1 r2) s
| lang_star_nil r : lang (Star r) EmptyString
| lang_star_app r s1 s2 :
    lang r s1 -> lang (Star r) s2 -> lang (Star r) (s1 ++ s2).

(** Every character class of the expression lies within [q]. *)
Fixpoint classes_within (q : ascii -> bool) (r : regex) : Prop :=
  match r with
  | Nothing | Epsilon => True
  | Class p => forall c, p c = true -> q c = true
  | Cat r1 r2 | Alt r1 r2 => classes_within q r1 /\ classes_within q r2
  | Star r1 => classes_within q r1
  end.

End Re.

(** ** Exceptions and results *)

Inductive result (E A : Type) : Type :=
| Ok (a : A)
| Raise (e : E).

Arguments Ok {E A} a.
Arguments Raise {E A} e.

#[global] Instance result_ret {E : Type} : MRet (result E) := fun A => @Ok E A.

#[global] Instance result_bind {E : Type} : MBind (result E) :=
  fun A B (f : A -> result E B) (r : result E A) =>
    match r with
    | Ok a => f a
    | Raise e => Raise e
    end.

#[global] Instance result_fmap {E : Type} : FMap (result E) :=
  fun A B (f : A -> B) (r : result E A) =>
    match r with
    | Ok a => Ok (f a)
    | Raise e => Raise e
    end.

(** [for x in xs: body(x)], stopping at the first exception. *)
Fixpoint for_each {E A : Type} (body : A -> result E unit) (xs : list A)
  : result E unit :=
  match xs with
  | [] => Ok tt
  | x :: rest => _ ← body x; for_each body rest
  end.

(** An attribute of an instance: never assigned, or assigned a value. *)
Inductive attr (A : Type) : Type :=
| Unbound
| Bound (a : A).

Arguments Unbound {A}.
Arguments Bound {A} a.

(** ** The class [ResourceLocation] *)

Module ResLoc.

Import PyStr Re.

(** Name faults: which of the two messages of [_check_name] a [ValueError]
    carries, "The following name is invalid: ..." or
    "The following name is unconventional: ...". *)
Inductive name_fault : Type := Invalid | Unconventional.

Inductive exn : Type :=
| ValueError (fault : name_fault) (name : string)
| AttributeError (attribute : string)
| IndexError.

Abbreviation res := (result exn).

Definition PRIVATE_PATH : string := "zz/do_not_run_or_packs_may_break".

(** [a-z0-9] *)
Definition in_range (lo hi c : ascii) : bool :=
  (nat_of_ascii lo <=? nat_of_ascii c)%nat
  && (nat_of_ascii c <=? nat_of_ascii hi)%nat.

Definition lower_or_digit (c : ascii) : bool :=
  in_range "a" "z" c || in_range "0" "9" c.

(** [a-z0-9_.-] *)
Definition name_char (c : ascii) : bool :=
  lower_or_digit c || Ascii.eqb c "_" || Ascii.eqb c "." || Ascii.eqb c "-".

(** [re.compile(r"^[a-z0-9_.-]+$")] *)
Definition VALID_RESOURCE_NAME : regex := Plus (Class name_char).

(** [re.compile(r"^[a-z0-9]+(?:_[a-z0-9]+)*$")] *)
Definition CONVENTIONAL_RESOURCE_NAME : regex :=
  Cat (Plus (Class lower_or_digit))
      (Star (Cat (Class (Ascii.eqb "_")) (Plus (Class lower_or_digit)))).

(** Modelled from the spec: [lib/version.py], which defines [Version], is not
    among the sources.  The specification treats a version as an opaque value
    that is passed through, so a version is represented by the text it was
    made from. *)
Inductive Version : Type := MkVersion (text : string).

(** The [version] argument of the constructor: [Version | str | None]. *)
Inductive version_arg : Type :=
| VersionText (s : string)
| VersionObject (v : Version).

(** The state of an instance: the attributes that [__init__] assigns.
    [_namespace], [version], [title] and [external] are assigned on every
    path through [__init__]; [_abstract_path] is assigned only when [base]
    contains a colon.  The class body announces [_version], [_title] and
    [_external] but only as annotations, which create no attribute, and no
    method assigns them.

    The two [cached_property] members store the value their getter returns
    in the instance under the same name.  Their getters read
    [_abstract_path] and [external] only, which no method assigns after
    [__init__], and a getter that raises stores nothing; reading the stored
    value therefore gives what running the getter again gives, and the
    stored values are left out of the state. *)
Record ResourceLocation : Type := {
  _namespace : string;
  _abstract_path : attr (option string);
  version : option Version;
  title : option string;
  external : bool
}.

(** [self._check_name(name)] *)
Definition _check_name (self : ResourceLocation) (name : string) : res unit :=
  if negb (re_match VALID_RESOURCE_NAME name) then
    Raise (ValueError Invalid name)
  else if negb (re_match CONVENTIONAL_RESOURCE_NAME name || external self) then
    Raise (ValueError Unconventional name)
  else Ok tt.

(** Reading an attribute whose name starts with an underscore and that the
    normal lookup does not find: Python then calls [__getattr__] with the
    name, which raises [AttributeError] because such a name does not match
    [CONVENTIONAL_RESOURCE_NAME] (lemma [getattr_underscore] below).  The
    same happens when the getter of a property raises [AttributeError]. *)
Definition not_found {A : Type} (name : string) : res A :=
  Raise (AttributeError name).

Definition or_not_found {A : Type} (name : string) (r : res A) : res A :=
  match r with
  | Raise (AttributeError _) => not_found name
  | _ => r
  end.

(** [self._abstract_path] *)
Definition get_abstract_path (self : ResourceLocation) : res (option string) :=
  match _abstract_path self with
  | Bound v => Ok v
  | Unbound => not_found "_abstract_path"
  end.

(** [self._external]: no instance has this attribute. *)
Definition get_external (self : ResourceLocation) : res bool :=
  not_found "_external".

(** [xs[-1]] *)
Definition item_last (xs : list string) : res string :=
  match last xs with
  | Some x => Ok x
  | None => Raise IndexError
  end.

(** [xs[-1] = x] *)
Definition set_item_last (xs : list string) (x : string) : res (list string) :=
  match xs with
  | [] => Raise IndexError
  | _ => Ok (<[pred (length xs) := x]> xs)
  end.

(** The getter of the cached property [_path_segments]. *)
Definition _path_segments (self : ResourceLocation) : res (list string) :=
  abstract_path ← get_abstract_path self;
  match abstract_path with
  | None => Ok []
  | Some abstract_path =>
      let path_segments := split "/" abstract_path in
      if negb (external self) then
        last_segment ← item_last path_segments;
        if startswith "_" last_segment then
          last_segment ← item_last path_segments;
          path_segments ←
            set_item_last path_segments (removesuffix "_" last_segment);
          Ok (PRIVATE_PATH :: path_segments)
        else Ok path_segments
      else Ok path_segments
  end.

(** [self._path_segments] *)
Definition get_path_segments (self : ResourceLocation) : res (list string) :=
  or_not_found "_path_segments" (_path_segments self).

(** The getter of the cached property [_path]. *)
Definition _path (self : ResourceLocation) : res (option string) :=
  segments ← get_path_segments self;
  match segments with
  | [] => Ok None
  | _ => segments ← get_path_segments self; Ok (Some (join "/" segments))
  end.

(** [self._path] *)
Definition get_path (self : ResourceLocation) : res (option string) :=
  or_not_found "_path" (_path self).

(** [Version(version) if isinstance(version, str) else version] *)
Definition make_version (version : option version_arg) : option Version :=
  match version with
  | Some (VersionText s) => Some (MkVersion s)
  | Some (VersionObject v) => Some v
  | None => None
  end.

(** [self._abstract_path = path] *)
Definition assign_abstract_path (self : ResourceLocation) (path : string)
  : ResourceLocation :=
  {| _namespace := _namespace self;
     _abstract_path := Bound (Some path);
     version := version self;
     title := title self;
     external := external self |}.

(** The instance after the first four assignments of [__init__]. *)
Definition fresh (namespace : string) (version : option version_arg)
    (title : option string) (external : bool) : ResourceLocation :=
  {| _namespace := namespace;
     _abstract_path := Unbound;
     version := make_version version;
     title := title;
     external := external |}.

(** [ResourceLocation(base, version=..., title=..., external=...)]: the
    instance when [__init__] returns, the exception when it raises. *)
Definition __init__ (base : string) (version : option version_arg)
    (title : option string) (external : bool) : res ResourceLocation :=
  let '(namespace, colon, path) := partition ":" base in
  let self := fresh namespace version title external in
  _ ← _check_name self namespace;
  if truthy colon then
    let self := assign_abstract_path self path in
    path_segments ← get_path_segments self;
    _ ← for_each (_check_name self) path_segments;
    Ok self
  else Ok self.

(** The names that [__init__] hands to [_check_name] when no check raises:
    the namespace, then what the loop over [self._path_segments] goes
    through. *)
Definition checked_names (base : string) (external : bool) : list string :=
  let '(namespace, colon, path) := partition ":" base in
  let self := fresh namespace None None external in
  namespace ::
    (if truthy colon then
       match get_path_segments (assign_abstract_path self path) with
       | Ok path_segments => path_segments
       | Raise _ => []
       end
     else []).

(** The constructor as the specification words it: the abstract path is
    split on [/] and every resulting segment is validated, before the
    private-path rewrite is applied. *)
Definition init_validating_shorthand (base : string)
    (version : option version_arg) (title : option string) (external : bool)
  : res ResourceLocation :=
  let '(namespace, colon, path) := partition ":" base in
  let self := fresh namespace version title external in
  _ ← _check_name self namespace;
  if truthy colon then
    let self := assign_abstract_path self path in
    _ ← for_each (_check_name self) (split "/" path);
    Ok self
  else Ok self.

(** [f"{x}"] for a value that is a text or [None]. *)
Definition fmt (x : option string) : string := default "None" x.

(** Truth value of a text or [None]. *)
Definition truthy_opt (x : option string) : bool :=
  match x with
  | Some s => truthy s
  | None => false
  end.

(** [self / other] *)
Definition __truediv__ (self : ResourceLocation) (other : string)
  : res ResourceLocation :=
  condition ← get_abstract_path self;
  path ←
    (if truthy_opt condition then
       abstract_path ← get_abstract_path self;
       Ok (fmt abstract_path +:+ "/" +:+ other)
     else Ok other);
  let base := _namespace self +:+ ":" +:+ path in
  external ← get_external self;
  __init__ base None None external.

(** [self.__getattr__(key)]: called by Python when the normal lookup of
    [key] fails. *)
Definition __getattr__ (self : ResourceLocation) (key : string) : res string :=
  if negb (re_match CONVENTIONAL_RESOURCE_NAME key) then
    Raise (AttributeError key)
  else
    path_segments ← get_path_segments self;
    Ok (join "." ([_namespace self] ++ path_segments ++ [key])).

(** [str(self)] *)
Definition __str__ (self : ResourceLocation) : res string :=
  path ← get_path self;
  match path with
  | None => Ok (_namespace self)
  | Some _ =>
      path ← get_path self;
      Ok (_namespace self +:+ ":" +:+ fmt path)
  end.

(** [self == other], for another instance of the class. *)
Definition __eq__ (self other : ResourceLocation) : res bool :=
  mine ← __str__ self;
  theirs ← __str__ other;
  Ok (String.eqb mine theirs).

(** Values that an attribute lookup can return. *)
Inductive pyvalue : Type :=
| PyNone
| PyStr (s : string)
| PyBool (b : bool)
| PyVersion (v : Version)
| PyTuple (items : list string)
| PyMethod (name : string).

Definition py_option {A : Type} (inj : A -> pyvalue) (o : option A) : pyvalue :=
  match o with
  | Some a => inj a
  | None => PyNone
  end.

(** The attributes stored in the instance, by name. *)
Definition instance_dict (self : ResourceLocation) (name : string)
  : option pyvalue :=
  if String.eqb name "_namespace" then Some (PyStr (_namespace self))
  else if String.eqb name "_abstract_path" then
    match _abstract_path self with
    | Bound v => Some (py_option PyStr v)
    | Unbound => None
    end
  else if String.eqb name "version" then
    Some (py_option PyVersion (version self))
  else if String.eqb name "title" then Some (py_option PyStr (title self))
  else if String.eqb name "external" then Some (PyBool (external self))
  else None.

(** The methods defined in the class body. *)
Definition class_methods : list string :=
  ["__init__"; "_check_name"; "__truediv__"; "__getattr__"; "__getitem__";
   "__str__"; "__eq__"; "__repr__"; "__hash__"].

(** [getattr(self, name)], also written [self.name]: the instance, then the
    class, then [__getattr__].  What the class inherits from [object] (names
    such as [__class__] or [__dict__]) is not represented. *)
Definition getattr (self : ResourceLocation) (name : string) : res pyvalue :=
  let fallback (r : res pyvalue) : res pyvalue :=
    match r with
    | Raise (AttributeError _) => PyStr <$> __getattr__ self name
    | _ => r
    end in
  match instance_dict self name with
  | Some v => Ok v
  | None =>
      if String.eqb name "_path_segments" then
        fallback (PyTuple <$> _path_segments self)
      else if String.eqb name "_path" then
        fallback (py_option PyStr <$> _path self)
      else if existsb (String.eqb name) class_methods then Ok (PyMethod name)
      else PyStr <$> __getattr__ self name
  end.

(** [self[key]] *)
Definition __getitem__ (self : ResourceLocation) (key : string) : res pyvalue :=
  getattr self ("_" +:+ key).

Section Hash.

(** [hash] on texts, which Python provides. *)
Variable hash_str : string -> Z.

(** [hash(self)] *)
Definition __hash__ (self : ResourceLocation) : res Z :=
  rendering ← __str__ self;
  Ok (hash_str rendering).

End Hash.

(** The two tiers of [_check_name] as one test: the name matches
    [VALID_RESOURCE_NAME], and it matches [CONVENTIONAL_RESOURCE_NAME] unless
    the location is external. *)
Definition name_passes (external : bool) (name : string) : bool :=
  re_match VALID_RESOURCE_NAME name
  && (re_match CONVENTIONAL_RESOURCE_NAME name || external).

(** The names written in a base text: the namespace, and the segments of
    the path when there is a colon. *)
Definition base_names (base : string) : list string :=
  let '(namespace, colon, path) := partition ":" base in
  namespace :: (if truthy colon then split "/" path else []).

(** The instance that [__init__] leaves when it returns. *)
Definition constructed (base : string) (version : option version_arg)
    (title : option string) (external : bool) : ResourceLocation :=
  let '(namespace, colon, path) := partition ":" base in
  let self := fresh namespace version title external in
  if truthy colon then assign_abstract_path self path else self.

(** A group of the conventional grammar: lowercase letters and digits, at
    least one. *)
Definition group (g : string) : bool :=
  truthy g && all lower_or_digit g.

End ResLoc.

(** ** The plugin [beet_default] *)

Module BeetPlugin.

Import PyStr.

(** A [pathlib.Path] is represented by its POSIX text. *)
Abbreviation Path := string.

(** What [yaml.safe_load] returns: [None] for an empty document or a null,
    a text, another scalar (a number, a truth value, a date, bytes, given
    here by its source text), a list or a set, or a [dict] with its entries
    in the order of the document; keys can be any scalar, and of two entries
    with the same key the later one stays. *)
#[local] Unset Elimination Schemes.
Inductive yaml : Type :=
| YNone
| YText (s : string)
| YScalar (source : string)
| YSeq (items : list yaml)
| YMap (entries : list (yaml * yaml)).
#[local] Set Elimination Schemes.

(** A parsed [config.yaml]: whatever [yaml.safe_load] returned; the first
    loop stores it without looking at it. *)
Abbreviation Config := yaml.

(** The exceptions of a run.  [LibraryError] stands for any other exception
    that derives from [Exception], and [Interruption] for one that does not
    ([KeyboardInterrupt], [SystemExit]). *)
Inductive error : Type :=
| ValueError (pack_path : Path)
| FileNotFoundError (pack_path : Path)
| KeyError (key : string)
| IndexError
| TypeError
| LibraryError (what : string)
| Interruption (what : string).

(** [isinstance(e, Exception)] *)
Definition is_exception (e : error) : bool :=
  match e with
  | Interruption _ => false
  | _ => true
  end.

Abbreviation res := (result error).

(** A piece of an f-string: literal text, or a value to be formatted. *)
Inductive fragment : Type :=
| Literal (text : string)
| Formatted (value : yaml).

(** The options handed to [subproject]; the constant entries ([output],
    [require], [pipeline], the colours of the description) are left out.
    The text of the description is kept as the pieces of its f-string. *)
Record Subproject : Type := {
  sub_id : string;
  sub_name : yaml;
  sub_version : yaml;
  sub_directory : string;
  sub_load : string;
  sub_description : list fragment;
  sub_meta : Config
}.

(** What the plugin gets from its surroundings: the build context, the file
    system, the YAML reader and beet.  [valid_path] stands for
    [VALID_PATH.match(p) is not None]; the pattern uses [\d], which Python
    matches against every Unicode decimal digit, so the test is taken as
    given.  [subproject] and [require] are what calling [subproject(options)]
    and then [ctx.require] on its result do: each returns, or raises. *)
Record World : Type := {
  pack_pattern : string;
  glob : string -> res (list Path);
  is_dir : Path -> bool;
  is_file : Path -> bool;
  read_text : Path -> res string;
  safe_load : string -> res Config;
  valid_path : Path -> bool;
  subproject : Subproject -> res unit;
  require : Subproject -> res unit
}.

Inductive log_record : Type :=
| Info (message : string)
| Exception (e : error).

(** The state of a run.  [pack_paths] is the generator that [glob] returned,
    represented by the paths it has not produced yet: a generator hands out
    each element once.  [required] lists the calls of [ctx.require]. *)
Record State : Type := {
  pack_paths : list Path;
  pack_configs : gmap Path Config;
  logged : list log_record;
  required : list Subproject
}.

Definition set_pack_paths (paths : list Path) (st : State) : State :=
  {| pack_paths := paths;
     pack_configs := pack_configs st;
     logged := logged st;
     required := required st |}.

Definition set_pack_config (p : Path) (c : Config) (st : State) : State :=
  {| pack_paths := pack_paths st;
     pack_configs := <[p := c]> (pack_configs st);
     logged := logged st;
     required := required st |}.

Definition add_log (r : log_record) (st : State) : State :=
  {| pack_paths := pack_paths st;
     pack_configs := pack_configs st;
     logged := logged st ++ [r];
     required := required st |}.

Definition add_required (s : Subproject) (st : State) : State :=
  {| pack_paths := pack_paths st;
     pack_configs := pack_configs st;
     logged := logged st;
     required := required st ++ [s] |}.

(** [for pack_path in pack_paths: body]: each turn takes the next path out
    of the generator and runs the body; the loop ends when the generator has
    nothing left, or with the exception that the body raises. *)
Fixpoint for_remaining (body : Path -> State -> res unit * State)
    (remaining : list Path) (st : State) : res unit * State :=
  match remaining with
  | [] => (Ok tt, set_pack_paths [] st)
  | pack_path :: rest =>
      match body pack_path (set_pack_paths rest st) with
      | (Ok _, st') => for_remaining body rest st'
      | (Raise e, st') => (Raise e, st')
      end
  end.

Definition for_pack_paths (body : Path -> State -> res unit * State)
    (st : State) : res unit * State :=
  for_remaining body (pack_paths st) st.

(** The body of the first loop. *)
Definition read_config (w : World) (pack_path : Path) (st : State)
  : res unit * State :=
  if negb (is_dir w pack_path) then (Ok tt, st)
  else if negb (valid_path w pack_path) then (Raise (ValueError pack_path), st)
  else
    let pack_config_path := pack_path +:+ "/config.yaml" in
    if negb (is_file w pack_config_path) then
      (Raise (FileNotFoundError pack_path), st)
    else
      match text ← read_text w pack_config_path; safe_load w text with
      | Ok config => (Ok tt, set_pack_config pack_path config st)
      | Raise e => (Raise e, st)
      end.

(** [mapping[key]] *)
Definition item {V : Type} (mapping : gmap string V) (key : string) : res V :=
  match mapping !! key with
  | Some v => Ok v
  | None => Raise (KeyError key)
  end.

(** [pack_path.parts[1]] and [pack_path.name] *)
Definition part_1 (pack_path : Path) : res string :=
  match split "/" pack_path !! 1%nat with
  | Some part => Ok part
  | None => Raise IndexError
  end.

Definition path_name (pack_path : Path) : string :=
  default "" (last (split "/" pack_path)).

(** The value of the last entry of a [dict] whose key is the text [key]. *)
Fixpoint find_entry (key : string) (entries : list (yaml * yaml))
  : option yaml :=
  match entries with
  | [] => None
  | (k, v) :: rest =>
      match find_entry key rest with
      | Some later => Some later
      | None =>
          match k with
          | YText s => if String.eqb s key then Some v else None
          | _ => None
          end
      end
  end.

(** [value[key]] for a text [key]: only a [dict] can be subscripted with a
    text; [None], a scalar or a list raise [TypeError]. *)
Definition subscript (value : yaml) (key : string) : res yaml :=
  match value with
  | YMap entries =>
      match find_entry key entries with
      | Some v => Ok v
      | None => Raise (KeyError key)
      end
  | _ => Raise TypeError
  end.

(** The options that the second loop builds for a pack. *)
Definition options (st : State) (pack_path : Path) : res Subproject :=
  pack_config ← item (pack_configs st) pack_path;
  game_version ← part_1 pack_path;
  title ← subscript pack_config "title";
  version ← subscript pack_config "version";
  let text :=
    [Formatted title; Literal " "; Formatted version;
     Literal " for MC "; Literal game_version] in
  name ← subscript pack_config "title";
  version ← subscript pack_config "version";
  Ok {| sub_id := path_name pack_path;
        sub_name := name;
        sub_version := version;
        sub_directory := pack_path;
        sub_load := "data/" +:+ path_name pack_path +:+ "/modules/_";
        sub_description := text;
        sub_meta := pack_config |}.

(** [except Exception as error: logger.exception(error)]: an exception that
    derives from [Exception] is logged and the loop goes on; any other one
    leaves the loop. *)
Definition except_Exception (e : error) (st : State) : res unit * State :=
  if is_exception e then (Ok tt, add_log (Exception e) st)
  else (Raise e, st).

(** The body of the second loop. *)
Definition build (w : World) (pack_path : Path) (st : State)
  : res unit * State :=
  let st := add_log (Info ("Building " +:+ pack_path +:+ "...")) st in
  match options st pack_path with
  | Raise e => except_Exception e st
  | Ok opts =>
      match subproject w opts with
      | Raise e => except_Exception e st
      | Ok _ =>
          let st := add_required opts st in
          match require w opts with
          | Ok _ => (Ok tt, st)
          | Raise e => except_Exception e st
          end
      end
  end.

(** The state when the first loop starts: the generator that [glob]
    returned and an empty [pack_configs]. *)
Definition initial_state (paths : list Path) : State :=
  {| pack_paths := paths; pack_configs := ∅; logged := []; required := [] |}.

(** [beet_default(ctx)]: how it ends, and the state it leaves. *)
Definition beet_default (w : World) : res unit * State :=
  match glob w (pack_pattern w) with
  | Raise e => (Raise e, initial_state [])
  | Ok paths =>
      match for_pack_paths (read_config w) (initial_state paths) with
      | (Raise e, st) => (Raise e, st)
      | (Ok _, st) => for_pack_paths (build w) st
      end
  end.

(** The second loop of [beet_default] run over a list of paths that can be
    gone through again, for comparison with the generator. *)
Definition build_all (w : World) (paths : list Path) (st : State)
  : res unit * State :=
  for_remaining (build w) paths st.

(** A project with one data pack, in the right place and with a
    [config.yaml] that gives a title and a version. *)
Definition one_pack : World :=
  {| pack_pattern := "datapacks/*/*";
     glob := fun _ => Ok ["datapacks/1.20/graves"];
     is_dir := fun _ => true;
     is_file := fun _ => true;
     read_text := fun _ => Ok "title: Graves";
     safe_load := fun _ =>
       Ok (YMap [(YText "title", YText "Graves");
                 (YText "version", YText "3.1.0")]);
     valid_path := fun _ => true;
     subproject := fun _ => Ok tt;
     require := fun _ => Ok tt |}.


(** [yaml.safe_load((pack_path / "config.yaml").read_text())] *)
Definition load_config (w : World) (pack_path : Path) : res Config :=
  text ← read_text w (pack_path +:+ "/config.yaml"); safe_load w text.

(** What the first loop does with a path: it passes over what is not a
    directory, stops with an exception, or stores a configuration. *)
Inductive verdict : Type :=
| Skipped
| Stopped (e : error)
| Loaded (config : Config).

Definition examine (w : World) (pack_path : Path) : verdict :=
  if negb (is_dir w pack_path) then Skipped
  else if negb (valid_path w pack_path) then Stopped (ValueError pack_path)
  else if negb (is_file w (pack_path +:+ "/config.yaml")) then
    Stopped (FileNotFoundError pack_path)
  else
    match load_config w pack_path with
    | Ok config => Loaded config
    | Raise e => Stopped e
    end.

Definition stops (w : World) (pack_path : Path) : bool :=
  match examine w pack_path with
  | Stopped _ => true
  | _ => false
  end.



End BeetPlugin.

(** * Properties *)

(** ** Texts *)

Module PyStrFacts.

Import PyStr.

Lemma append_empty_r (s : string) : s +:+ "" = s.
Proof. induction s as [|a s IH]; simpl; [reflexivity | now rewrite IH]. Qed.

Lemma append_is_empty (s t : string) : s +:+ t = "" -> s = "" /\ t = "".
Proof. destruct s; simpl; [auto | discriminate]. Qed.

Lemma all_append (p : ascii -> bool) (s t : string) :
  all p (s +:+ t) = all p s && all p t.
Proof.
  induction s as [|a s IH]; simpl; [reflexivity |].
  now rewrite IH, andb_assoc.
Qed.

Lemma mem_append (c : ascii) (s t : string) :
  mem c (s +:+ t) = mem c s || mem c t.
Proof.
  induction s as [|a s IH]; simpl; [reflexivity |].
  now rewrite IH, orb_assoc.
Qed.

(** A character that fails a test is in no text that passes it throughout. *)
Lemma all_excludes (p : ascii -> bool) (c : ascii) (s : string) :
  p c = false -> all p s = true -> mem c s = false.
Proof.
  intros Hc. induction s as [|a s IH]; simpl; [reflexivity |].
  intros [Ha Hs]%andb_true_iff. rewrite (IH Hs), orb_false_r.
  destruct (Ascii.eqb_spec a c) as [->|]; [congruence | reflexivity].
Qed.

Lemma cut_absent (sep : ascii) (s : string) :
  mem sep s = false -> cut sep s = None.
Proof.
  induction s as [|a s IH]; simpl; [reflexivity |].
  intros [Ha Hs]%orb_false_iff. now rewrite Ha, (IH Hs).
Qed.

(** Without the separator in it, a text is its own first part. *)
Lemma partition_absent (sep : ascii) (s : string) :
  mem sep s = false -> partition sep s = (s, "", "").
Proof. intros H. unfold partition. now rewrite (cut_absent _ _ H). Qed.

Lemma cut_present (sep : ascii) (s before after : string) :
  cut sep s = Some (before, after) ->
  s = before +:+ String sep after /\ mem sep before = false.
Proof.
  revert before after. induction s as [|a s IH]; simpl; [discriminate |].
  intros before after. destruct (Ascii.eqb_spec a sep) as [->|Hne].
  - intros [= <- <-]. auto.
  - destruct (cut sep s) as [[b t]|]; [| discriminate].
    intros [= <- <-]. destruct (IH _ _ eq_refl) as [-> Hb]. split; [reflexivity |].
    simpl. rewrite Hb, orb_false_r. now apply Ascii.eqb_neq.
Qed.

Lemma split_not_nil (sep : ascii) (s : string) : split sep s <> [].
Proof. unfold split. now destruct (split_pieces sep s). Qed.

End PyStrFacts.

(** ** The matcher against the words of a regular expression *)

Module ReFacts.

Import PyStr Re PyStrFacts.

Lemma lang_nil_nullable (r : regex) (w : string) :
  lang r w -> w = "" -> nullable r = true.
Proof.
  induction 1 as [ | p c Hp | r1 r2 s1 s2 _ IH1 _ IH2 | r1 r2 s _ IH
                 | r1 r2 s _ IH | r | r s1 s2 _ _ _ _ ]; simpl; intros Hw;
    try reflexivity; try discriminate.
  - apply append_is_empty in Hw as [-> ->]. now rewrite IH1, IH2.
  - now rewrite IH.
  - rewrite IH by assumption. apply orb_true_r.
Qed.

Lemma nullable_lang_nil (r : regex) : nullable r = true -> lang r "".
Proof.
  induction r as [ | | p | r1 IH1 r2 IH2 | r1 IH1 r2 IH2 | r IH ]; simpl;
    try discriminate; intros H.
  - constructor.
  - apply andb_true_iff in H as [H1 H2].
    change "" with ("" +:+ ""). constructor; auto.
  - apply orb_true_iff in H as [H1 | H2];
      [apply lang_alt_l | apply lang_alt_r]; auto.
  - constructor.
Qed.

(** Words of the derivative, put back behind the character. *)
Lemma deriv_sound (c : ascii) (r : regex) :
  forall s, lang (deriv c r) s -> lang r (String c s).
Proof.
  induction r as [ | | p | r1 IH1 r2 IH2 | r1 IH1 r2 IH2 | r IH ]; simpl;
    intros s H.
  - inversion H.
  - inversion H.
  - destruct (p c) eqn:Hp; inversion H; subst. now constructor.
  - destruct (nullable r1) eqn:Hn.
    + inversion H as [ | | | ? ? ? Hl | ? ? ? Hr | | ]; subst.
      * inversion Hl as [ | | ? ? s1 s2 H1 H2 | | | | ]; subst.
        change (String c (s1 +:+ s2)) with (String c s1 +:+ s2).
        constructor; auto.
      * change (String c s) with ("" +:+ String c s).
        constructor; auto using nullable_lang_nil.
    + inversion H as [ | | ? ? s1 s2 H1 H2 | | | | ]; subst.
      change (String c (s1 +:+ s2)) with (String c s1 +:+ s2).
      constructor; auto.
  - inversion H; subst; [apply lang_alt_l | apply lang_alt_r]; auto.
  - inversion H as [ | | ? ? s1 s2 H1 H2 | | | | ]; subst.
    change (String c (s1 +:+ s2)) with (String c s1 +:+ s2).
    constructor; auto.
Qed.

(** A word that starts with the character leaves a word of the derivative. *)
Lemma deriv_complete (r : regex) (w : string) :
  lang r w -> forall c s, w = String c s -> lang (deriv c r) s.
Proof.
  induction 1 as [ | p a Hp | r1 r2 s1 s2 H1 IH1 H2 IH2 | r1 r2 w H IH
                 | r1 r2 w H IH | r | r s1 s2 H1 IH1 H2 IH2 ];
    intros c s Hw; simpl.
  - discriminate.
  - injection Hw as -> <-. rewrite Hp. constructor.
  - destruct s1 as [|a s1]; simpl in Hw.
    + rewrite (lang_nil_nullable _ _ H1 eq_refl).
      apply lang_alt_r. now apply IH2.
    + injection Hw as -> <-.
      assert (lang (Cat (deriv c r1) r2) (s1 +:+ s2)) as Hcat
        by (constructor; auto).
      destruct (nullable r1); [now apply lang_alt_l | assumption].
  - apply lang_alt_l. now apply IH.
  - apply lang_alt_r. now apply IH.
  - discriminate.
  - destruct s1 as [|a s1]; simpl in Hw.
    + now apply IH2.
    + injection Hw as -> <-. constructor; auto.
Qed.

Lemma fullmatch_lang (s : string) :
  forall r, fullmatch r s = true <-> lang r s.
Proof.
  induction s as [|c s IH]; simpl; intros r.
  - split; [apply nullable_lang_nil | intros H; now apply lang_nil_nullable with ""].
  - rewrite IH. split; [apply deriv_sound |].
    intros H. now apply deriv_complete with (String c s).
Qed.

Lemma lang_within (q : ascii -> bool) (r : regex) (w : string) :
  lang r w -> classes_within q r -> all q w = true.
Proof.
  induction 1 as [ | p a Hp | r1 r2 s1 s2 _ IH1 _ IH2 | r1 r2 w _ IH
                 | r1 r2 w _ IH | r | r s1 s2 _ IH1 _ IH2 ]; simpl; intros Hq;
    try reflexivity.
  - now rewrite (Hq _ Hp).
  - destruct Hq. rewrite all_append, IH1, IH2; auto.
  - destruct Hq; auto.
  - destruct Hq; auto.
  - rewrite all_append, IH1, IH2; auto.
Qed.

(** The words of [[class]+]: the texts that are not empty and stay within
    the class. *)
Lemma lang_star_class (p : ascii -> bool) (s : string) :
  all p s = true -> lang (Star (Class p)) s.
Proof.
  induction s as [|a s IH]; simpl; [constructor |].
  intros [Ha Hs]%andb_true_iff.
  change (String a s) with (String a "" +:+ s).
  constructor; [now constructor | auto].
Qed.

Lemma lang_plus_class (p : ascii -> bool) (s : string) :
  lang (Plus (Class p)) s <-> s <> "" /\ all p s = true.
Proof.
  split.
  - intros H. split.
    + intros ->. now apply lang_nil_nullable with (w := "") in H.
    + apply lang_within with (1 := H). simpl. auto.
  - intros [Hne Hall]. destruct s as [|a s]; [congruence |].
    simpl in Hall. apply andb_true_iff in Hall as [Ha Hs].
    change (String a s) with (String a "" +:+ s).
    constructor; [now constructor | now apply lang_star_class].
Qed.

Lemma chop_line_feed_app (s t : string) :
  chop_line_feed s = Some t -> s = t +:+ String line_feed "".
Proof.
  revert t. induction s as [|a s IH]; simpl; [discriminate |].
  intros t. destruct s as [|b s].
  - destruct (Ascii.eqb_spec a line_feed) as [->|]; [| discriminate].
    now intros [= <-].
  - destruct (chop_line_feed (String b s)) as [u|]; [| discriminate].
    intros [= <-]. simpl. f_equal. now apply IH.
Qed.

(** What a text that matches is made of: the texts covered by the body,
    with or without a line feed behind them. *)
Lemma re_match_lang (body : regex) (s : string) :
  re_match body s = true <->
  lang body s \/ exists t, s = t +:+ String line_feed "" /\ lang body t.
Proof.
  unfold re_match. rewrite orb_true_iff, fullmatch_lang. split.
  - intros [H | H]; [now left |]. right.
    destruct (chop_line_feed s) as [t|] eqn:Hc; [| discriminate].
    exists t. split; [now apply chop_line_feed_app | now apply fullmatch_lang].
  - intros [H | (t & -> & H)]; [now left |]. right.
    assert (chop_line_feed (t +:+ String line_feed "") = Some t) as ->.
    { clear H. induction t as [|a t IH]; [reflexivity |].
      simpl. simpl in IH. rewrite IH. now destruct t. }
    now apply fullmatch_lang.
Qed.

End ReFacts.

(** ** Names *)

Module NameFacts.

Import PyStr Re PyStrFacts ReFacts ResLoc.

Lemma lower_or_digit_name_char (c : ascii) :
  lower_or_digit c = true -> name_char c = true.
Proof. unfold name_char. now intros ->. Qed.

Lemma conventional_within_name_char :
  classes_within name_char CONVENTIONAL_RESOURCE_NAME.
Proof.
  unfold CONVENTIONAL_RESOURCE_NAME, Plus. cbn [classes_within].
  repeat split; auto using lower_or_digit_name_char.
  all: intros c Hc; apply Ascii.eqb_eq in Hc; now subst c.
Qed.

(** The words of the conventional grammar are words of the permissive one. *)
Lemma lang_conventional_valid (s : string) :
  lang CONVENTIONAL_RESOURCE_NAME s -> lang VALID_RESOURCE_NAME s.
Proof.
  intros H. apply lang_plus_class. split.
  - intros ->. now apply lang_nil_nullable with (w := "") in H.
  - apply lang_within with (1 := H), conventional_within_name_char.
Qed.

(** A name that matches [CONVENTIONAL_RESOURCE_NAME] matches
    [VALID_RESOURCE_NAME]. *)
Lemma conventional_is_valid (name : string) :
  re_match CONVENTIONAL_RESOURCE_NAME name = true ->
  re_match VALID_RESOURCE_NAME name = true.
Proof.
  rewrite !re_match_lang.
  intros [H | (t & -> & H)]; [left | right; exists t; split; [reflexivity |]];
    now apply lang_conventional_valid.
Qed.

(** A name that matches [VALID_RESOURCE_NAME] contains neither a colon nor a
    slash. *)
Lemma valid_excludes (c : ascii) (name : string) :
  name_char c = false -> Ascii.eqb line_feed c = false ->
  re_match VALID_RESOURCE_NAME name = true -> mem c name = false.
Proof.
  intros Hc Hlf. rewrite re_match_lang.
  intros [H | (t & -> & H)]; apply lang_plus_class in H as [_ H].
  - now apply all_excludes with name_char.
  - rewrite mem_append, (all_excludes _ _ _ Hc H). cbn [mem orb].
    now rewrite Hlf.
Qed.

Lemma conventional_no_colon (name : string) :
  re_match CONVENTIONAL_RESOURCE_NAME name = true -> mem ":" name = false.
Proof.
  intros H. now apply valid_excludes, conventional_is_valid.
Qed.

(** No word of [[class]+ ...] starts with a character outside the class. *)
Lemma lang_first_char (p : ascii -> bool) (r : regex) (c : ascii) (s : string) :
  lang (Cat (Plus (Class p)) r) (String c s) -> p c = true.
Proof.
  intros H. apply deriv_complete with (c := c) (s := s) in H; [| reflexivity].
  simpl in H. destruct (p c); [reflexivity |].
  inversion H as [ | | ? ? s1 s2 H1 H2 | | | | ]; subst.
  inversion H1 as [ | | ? ? t1 t2 H3 H4 | | | | ]; subst.
  inversion H3.
Qed.

(** A name with a leading underscore does not match
    [CONVENTIONAL_RESOURCE_NAME]. *)
Lemma underscore_not_conventional (name : string) :
  startswith "_" name = true ->
  re_match CONVENTIONAL_RESOURCE_NAME name = false.
Proof.
  destruct name as [|a name]; simpl; [discriminate |].
  intros Ha. apply Ascii.eqb_eq in Ha. subst a.
  apply not_true_is_false. rewrite re_match_lang.
  intros [H | (t & Ht & H)].
  - now apply lang_first_char in H.
  - destruct t as [|b t]; simpl in Ht.
    + now apply lang_nil_nullable with (w := "") in H.
    + injection Ht as <- _. now apply lang_first_char in H.
Qed.

(** What [not_found] stands for: asked for a name with a leading underscore,
    [__getattr__] raises [AttributeError] with that name. *)
Lemma getattr_underscore (self : ResourceLocation) (name : string) :
  startswith "_" name = true ->
  __getattr__ self name = Raise (AttributeError name).
Proof.
  intros H. unfold __getattr__.
  now rewrite (underscore_not_conventional _ H).
Qed.

(** [_check_name] returns exactly for the names that pass both tiers. *)
Lemma check_name_ok (self : ResourceLocation) (name : string) :
  _check_name self name = Ok tt <->
  re_match VALID_RESOURCE_NAME name = true
  /\ (re_match CONVENTIONAL_RESOURCE_NAME name = true \/ external self = true).
Proof.
  unfold _check_name.
  destruct (re_match VALID_RESOURCE_NAME name),
    (re_match CONVENTIONAL_RESOURCE_NAME name), (external self); simpl;
    intuition congruence.
Qed.

(** ... and raises [ValueError], with the name, for the others. *)
Lemma check_name_raises (self : ResourceLocation) (name : string) (e : exn) :
  _check_name self name = Raise e <->
  (re_match VALID_RESOURCE_NAME name = false /\ e = ValueError Invalid name)
  \/ (re_match VALID_RESOURCE_NAME name = true
      /\ re_match CONVENTIONAL_RESOURCE_NAME name = false
      /\ external self = false /\ e = ValueError Unconventional name).
Proof.
  unfold _check_name.
  destruct (re_match VALID_RESOURCE_NAME name),
    (re_match CONVENTIONAL_RESOURCE_NAME name), (external self); simpl;
    intuition congruence.
Qed.

(** A loop of checks returns when every check does. *)
Lemma for_each_ok {E A : Type} (body : A -> result E unit) (xs : list A) :
  for_each body xs = Ok tt <-> Forall (fun x => body x = Ok tt) xs.
Proof.
  induction xs as [|x xs IH]; simpl.
  - split; [constructor | reflexivity].
  - rewrite Forall_cons, <- IH. unfold mbind, result_bind.
    destruct (body x) as [[]|e]; intuition congruence.
Qed.

(** A loop of checks raises what the first failing check raises. *)
Lemma for_each_raises {E A : Type} (body : A -> result E unit) (xs : list A)
    (e : E) :
  for_each body xs = Raise e <->
  exists before x after,
    xs = before ++ x :: after
    /\ Forall (fun y => body y = Ok tt) before
    /\ body x = Raise e.
Proof.
  induction xs as [|x xs IH]; simpl.
  - split; [discriminate |]. intros (before & y & after & H & _).
    now destruct before.
  - unfold mbind, result_bind. destruct (body x) as [[]|e'] eqn:Hx.
    + rewrite IH. split.
      * intros (before & y & after & -> & Hb & Hy).
        exists (x :: before), y, after. repeat split; auto.
      * intros (before & y & after & Heq & Hb & Hy).
        destruct before as [|b before]; simpl in Heq.
        -- injection Heq as -> ->. congruence.
        -- injection Heq as -> ->. apply Forall_cons in Hb as [_ Hb].
           now exists before, y, after.
    + split.
      * intros [= ->]. exists [], x, xs. repeat split; auto.
      * intros (before & y & after & Heq & Hb & Hy).
        destruct before as [|b before]; simpl in Heq.
        -- injection Heq as -> ->. congruence.
        -- injection Heq as -> ->. apply Forall_cons in Hb as [Hb _].
           congruence.
Qed.

End NameFacts.

(** ** Resource locations *)

Module ResLocFacts.

Import PyStr Re PyStrFacts ReFacts ResLoc NameFacts.

(** What [self._path_segments] gives once [_abstract_path] holds a text: the
    getter never raises there, and it changes the split of the text only for
    a location that is not external and whose last segment starts with an
    underscore. *)
Lemma segments_of_path (self : ResourceLocation) (path : string) :
  _abstract_path self = Bound (Some path) ->
  exists last_segment,
    last (split "/" path) = Some last_segment
    /\ get_path_segments self =
         Ok (if negb (external self) && startswith "_" last_segment
             then PRIVATE_PATH ::
                    <[pred (length (split "/" path)) :=
                        removesuffix "_" last_segment]> (split "/" path)
             else split "/" path).
Proof.
  intros Hpath.
  destruct (last (split "/" path)) as [l|] eqn:Hlast.
  2: { apply last_None in Hlast. now apply split_not_nil in Hlast. }
  exists l. split; [reflexivity |].
  unfold get_path_segments, _path_segments, get_abstract_path, item_last.
  rewrite Hpath. cbn [mbind result_bind]. rewrite Hlast.
  destruct (external self); cbn [negb andb mbind result_bind]; [reflexivity |].
  destruct (startswith "_" l); [| reflexivity].
  unfold set_item_last.
  destruct (split "/" path) eqn:Hs; [discriminate | reflexivity].
Qed.

(** Without [_abstract_path], reading [_path_segments] or [_path] and
    rendering all raise [AttributeError]. *)
Lemma unbound_path_segments (self : ResourceLocation) :
  _abstract_path self = Unbound ->
  get_path_segments self = Raise (AttributeError "_path_segments").
Proof.
  intros H. unfold get_path_segments, _path_segments, get_abstract_path.
  now rewrite H.
Qed.

Lemma unbound_str (self : ResourceLocation) :
  _abstract_path self = Unbound ->
  __str__ self = Raise (AttributeError "_path").
Proof.
  intros H. unfold __str__, get_path, _path.
  now rewrite (unbound_path_segments _ H).
Qed.

(** [__init__] on a base without a colon: the namespace is checked and
    [_abstract_path] stays as it was, unassigned. *)
Lemma init_without_colon (base : string) (version : option version_arg)
    (title : option string) (external : bool) :
  mem ":" base = false ->
  __init__ base version title external =
    (_ ← _check_name (fresh base version title external) base;
     Ok (fresh base version title external)).
Proof.
  intros H. unfold __init__. now rewrite (partition_absent _ _ H).
Qed.

(** [_check_name] and [_path_segments] read [external] and [_abstract_path]
    only. *)
Lemma check_name_reads_external (self other : ResourceLocation) (name : string) :
  external self = external other ->
  _check_name self name = _check_name other name.
Proof. intros H. unfold _check_name. now rewrite H. Qed.

Lemma path_segments_reads (self other : ResourceLocation) :
  external self = external other ->
  _abstract_path self = _abstract_path other ->
  get_path_segments self = get_path_segments other.
Proof.
  intros He Hp.
  unfold get_path_segments, _path_segments, get_abstract_path.
  now rewrite He, Hp.
Qed.

Lemma segments_not_nil (self : ResourceLocation) (path : string)
    (segments : list string) :
  _abstract_path self = Bound (Some path) ->
  get_path_segments self = Ok segments -> segments <> [].
Proof.
  intros Hp Hs. destruct (segments_of_path _ _ Hp) as (l & Hl & Heq).
  rewrite Heq in Hs. injection Hs as <-.
  destruct (negb (external self) && startswith "_" l); [discriminate |].
  apply split_not_nil.
Qed.

(** The constructor is the loop of checks over [checked_names]: it raises
    what the first failing check raises, and returns the instance when no
    check fails. *)
Lemma init_as_loop (base : string) (version : option version_arg)
    (title : option string) (external : bool) :
  __init__ base version title external =
    let '(namespace, colon, path) := partition ":" base in
    let self := fresh namespace version title external in
    _ ← for_each (_check_name self) (checked_names base external);
    Ok (if truthy colon then assign_abstract_path self path else self).
Proof.
  unfold __init__, checked_names.
  destruct (partition ":" base) as [[namespace colon] path].
  cbn [for_each]. unfold mbind at 1 3, result_bind.
  destruct (_check_name (fresh namespace version title external) namespace)
    as [[]|e]; [| reflexivity].
  destruct (truthy colon); [| reflexivity].
  rewrite (path_segments_reads
             (assign_abstract_path (fresh namespace None None external) path)
             (assign_abstract_path (fresh namespace version title external) path))
    by reflexivity.
  destruct (segments_of_path
              (assign_abstract_path (fresh namespace version title external) path)
              path eq_refl) as (l & _ & ->).
  reflexivity.
Qed.

End ResLocFacts.

(** ** The claims about resource locations *)

Module ResourceLocationSpec.

Import PyStr Re PyStrFacts ReFacts ResLoc NameFacts ResLocFacts.

(** The private prefix is one segment with slashes in it, and fails the
    permissive grammar. *)
Lemma private_path_invalid :
  re_match VALID_RESOURCE_NAME PRIVATE_PATH = false.
Proof. vm_compute. reflexivity. Qed.

(** No location that is not external comes out of the constructor with a
    rewritten path: a last segment with a leading underscore makes the
    constructor raise. *)
Lemma constructed_path_is_split (base : string) (version : option version_arg)
    (title : option string) (self : ResourceLocation) (path : string) :
  __init__ base version title false = Ok self ->
  _abstract_path self = Bound (Some path) ->
  get_path_segments self = Ok (split "/" path).
Proof.
  rewrite init_as_loop. unfold checked_names.
  destruct (partition ":" base) as [[namespace colon] path'].
  cbn zeta.
  destruct (for_each _ _) as [[]|e] eqn:Hloop; [| discriminate].
  cbn [mbind result_bind]. intros [= <-].
  destruct (truthy colon); [| discriminate]. intros [= <-].
  destruct (segments_of_path
              (assign_abstract_path (fresh namespace version title false) path')
              path' eq_refl) as (l & Hl & Heq).
  rewrite Heq. cbn [external assign_abstract_path fresh negb andb] in *.
  destruct (startswith "_" l); [| reflexivity].
  exfalso. apply for_each_ok in Hloop.
  rewrite (path_segments_reads
             (assign_abstract_path (fresh namespace None None false) path')
             (assign_abstract_path (fresh namespace version title false) path'))
    in Hloop by reflexivity.
  rewrite Heq in Hloop. cbn [external assign_abstract_path fresh negb andb] in Hloop.
  apply Forall_cons in Hloop as [_ Hloop].
  apply Forall_cons in Hloop as [Hprivate _].
  apply check_name_ok in Hprivate as [Hvalid _].
  now rewrite private_path_invalid in Hvalid.
Qed.

Lemma constructed_path_is_split_witness :
  __init__ "ns:a/b" None None false
    = Ok (assign_abstract_path (fresh "ns" None None false) "a/b")
  /\ get_path_segments (assign_abstract_path (fresh "ns" None None false) "a/b")
     = Ok (split "/" "a/b").
Proof.
  split; [reflexivity |].
  apply (constructed_path_is_split "ns:a/b" None None _ "a/b"); reflexivity.
Defined.

(** C1.  The specification expects the private rewrite to strip the leading
    underscore of the last segment and to put the private prefix in front, so
    that [str(ResourceLocation("ns") / "_thing")] is
    ["ns:zz/do_not_run_or_packs_may_break/thing"].  The code does otherwise
    at that input: the division raises [AttributeError], because
    [_abstract_path] was never assigned; the same location given to the
    constructor as ["ns:_thing"] is refused with [ValueError], because the
    prefix is validated as one segment; and the segments derived inside the
    constructor keep the underscore, ["_thing"], since [removesuffix] looks
    at the end of the segment. *)
Theorem C1_private_rewrite :
  (ns ← __init__ "ns" None None false;
   loc ← __truediv__ ns "_thing";
   __str__ loc) = Raise (AttributeError "_abstract_path")
  /\ __init__ "ns:_thing" None None false
     = Raise (ValueError Invalid "zz/do_not_run_or_packs_may_break")
  /\ get_path_segments
       (assign_abstract_path (fresh "ns" None None false) "_thing")
     = Ok ["zz/do_not_run_or_packs_may_break"; "_thing"].
Proof. repeat split; vm_compute; reflexivity. Qed.

(** C2.  For every namespace that matches the conventional grammar, the
    constructor returns an instance, on which [_abstract_path] is not
    assigned; rendering that instance raises [AttributeError] where the
    specification expects the namespace back. *)
Theorem C2_namespace_only (namespace : string) (version : option version_arg)
    (title : option string) (external : bool) :
  re_match CONVENTIONAL_RESOURCE_NAME namespace = true ->
  __init__ namespace version title external
    = Ok (fresh namespace version title external)
  /\ __str__ (fresh namespace version title external)
     = Raise (AttributeError "_path").
Proof.
  intros Hconv. split.
  - rewrite init_without_colon by now apply conventional_no_colon.
    assert (_check_name (fresh namespace version title external) namespace
            = Ok tt) as ->; [| reflexivity].
    apply check_name_ok. split; [now apply conventional_is_valid | now left].
  - now apply unbound_str.
Qed.

Lemma C2_namespace_only_witness :
  re_match CONVENTIONAL_RESOURCE_NAME "ns" = true
  /\ __init__ "ns" None None false = Ok (fresh "ns" None None false)
  /\ __str__ (fresh "ns" None None false) = Raise (AttributeError "_path").
Proof.
  split; [reflexivity |].
  apply (C2_namespace_only "ns" None None false). reflexivity.
Defined.

(** C3, as stated, at ["ns:_thing"]: the loop of the constructor goes over
    the rewritten segments, whose first one is the private prefix, and not
    over the segments of the abstract path; the constructor raises for the
    prefix, where validating the segments before the rewrite raises for
    ["_thing"]. *)
Lemma C3_validated_segments_counterexample :
  get_path_segments
    (assign_abstract_path (fresh "ns" None None false) "_thing")
    = Ok ["zz/do_not_run_or_packs_may_break"; "_thing"]
  /\ split "/" "_thing" = ["_thing"]
  /\ __init__ "ns:_thing" None None false
     = Raise (ValueError Invalid "zz/do_not_run_or_packs_may_break")
  /\ init_validating_shorthand "ns:_thing" None None false
     = Raise (ValueError Unconventional "_thing")
  /\ __init__ "ns:_thing" None None false
     <> init_validating_shorthand "ns:_thing" None None false.
Proof. repeat split; vm_compute; congruence. Qed.

(** C3, amended.  When the input contains a colon, the names that the
    constructor validates are the namespace and then the derived path
    segments, that is the segments after the private-path rewrite: the
    constructor returns the instance exactly when all of them pass
    [_check_name], and otherwise raises what the first failing one raises.
    The derived segments are the segments of the abstract path exactly when
    no rewrite applies, that is when the location is external or the last
    segment has no leading underscore. *)
Theorem C3_validates_derived_segments (base : string)
    (version : option version_arg) (title : option string) (external : bool)
    (namespace path : string) :
  partition ":" base = (namespace, ":", path) ->
  let self := assign_abstract_path (fresh namespace version title external) path in
  exists segments last_segment,
    get_path_segments self = Ok segments
    /\ last (split "/" path) = Some last_segment
    /\ (segments = split "/" path <->
        external = true \/ startswith "_" last_segment = false)
    /\ (__init__ base version title external = Ok self <->
        Forall (fun name => _check_name self name = Ok tt)
               (namespace :: segments))
    /\ (forall e,
          __init__ base version title external = Raise e <->
          exists before name after,
            namespace :: segments = before ++ name :: after
            /\ Forall (fun n => _check_name self n = Ok tt) before
            /\ _check_name self name = Raise e).
Proof.
  intros Hbase self.
  destruct (segments_of_path self path eq_refl) as (l & Hl & Hsegs).
  change (ResLoc.external self) with external in Hsegs.
  eexists _, l. split; [exact Hsegs |]. split; [exact Hl |].
  split.
  { destruct external; cbn [negb andb]; [intuition |].
    destruct (startswith "_" l); [| intuition].
    split; [| intuition congruence].
    intros Heq. apply (f_equal length) in Heq.
    cbn [length] in Heq. rewrite length_insert in Heq. lia. }
  assert (checked_names base external =
          namespace :: (if negb external && startswith "_" l
                        then PRIVATE_PATH ::
                               <[pred (length (split "/" path)) :=
                                   removesuffix "_" l]> (split "/" path)
                        else split "/" path)) as Hnames.
  { unfold checked_names. rewrite Hbase. cbn [truthy]. f_equal.
    rewrite (path_segments_reads
               (assign_abstract_path (fresh namespace None None external) path)
               self) by reflexivity.
    now rewrite Hsegs. }
  rewrite init_as_loop, Hbase. cbn zeta. cbn [truthy]. fold self.
  rewrite Hnames.
  change (_check_name (fresh namespace version title external))
    with (_check_name self).
  split.
  - rewrite <- for_each_ok.
    destruct (for_each _ _) as [[]|e]; cbn [mbind result_bind];
      intuition congruence.
  - intros e. rewrite <- for_each_raises.
    destruct (for_each _ _) as [[]|e']; cbn [mbind result_bind];
      intuition congruence.
Qed.

Lemma C3_validates_derived_segments_witness :
  partition ":" "ns:a/b" = ("ns", ":", "a/b")
  /\ exists segments last_segment,
       get_path_segments
         (assign_abstract_path (fresh "ns" None None false) "a/b")
       = Ok segments
       /\ last (split "/" "a/b") = Some last_segment
       /\ (segments = split "/" "a/b" <->
           false = true \/ startswith "_" last_segment = false)
       /\ (__init__ "ns:a/b" None None false
           = Ok (assign_abstract_path (fresh "ns" None None false) "a/b") <->
           Forall (fun name =>
                     _check_name
                       (assign_abstract_path (fresh "ns" None None false) "a/b")
                       name = Ok tt)
                  ("ns" :: segments))
       /\ (forall e,
             __init__ "ns:a/b" None None false = Raise e <->
             exists before name after,
               "ns" :: segments = before ++ name :: after
               /\ Forall (fun n =>
                            _check_name
                              (assign_abstract_path
                                 (fresh "ns" None None false) "a/b")
                              n = Ok tt) before
               /\ _check_name
                    (assign_abstract_path (fresh "ns" None None false) "a/b")
                    name = Raise e).
Proof.
  split; [reflexivity |].
  apply (C3_validates_derived_segments "ns:a/b" None None false "ns" "a/b").
  reflexivity.
Defined.

(** With [_abstract_path] assigned, [__getattr__] on a conventional key joins
    the namespace, the derived segments and the key with dots. *)
Lemma getattr_with_path (self : ResourceLocation) (path key : string) :
  _abstract_path self = Bound (Some path) ->
  re_match CONVENTIONAL_RESOURCE_NAME key = true ->
  exists segments,
    get_path_segments self = Ok segments
    /\ __getattr__ self key
       = Ok (join "." ([_namespace self] ++ segments ++ [key])).
Proof.
  intros Hpath Hkey.
  destruct (segments_of_path self path Hpath) as (l & _ & Hsegs).
  eexists. split; [exact Hsegs |].
  unfold __getattr__. now rewrite Hkey, Hsegs.
Qed.

(** Without [_abstract_path], [__getattr__] on a conventional key raises. *)
Lemma getattr_without_path (self : ResourceLocation) (key : string) :
  _abstract_path self = Unbound ->
  re_match CONVENTIONAL_RESOURCE_NAME key = true ->
  __getattr__ self key = Raise (AttributeError "_path_segments").
Proof.
  intros Hpath Hkey. unfold __getattr__.
  now rewrite Hkey, (unbound_path_segments _ Hpath).
Qed.

(** C4.  The specification expects [ResourceLocation("ns").thing_1] to be
    ["ns.thing_1"].  In the code that lookup raises [AttributeError]: a
    location made without a colon has no [_abstract_path], so reading
    [_path_segments] fails, and this holds for every conventional key on such
    a location.  The rest is as the specification says:
    [ResourceLocation("ns:path").thing_2] is ["ns.path.thing_2"], on a
    location with a path [__getattr__] joins the namespace, the derived
    segments and the key with dots, and a key that does not match the
    conventional grammar raises [AttributeError]. *)
Theorem C4_symbol_lookup :
  (loc ← __init__ "ns" None None false; getattr loc "thing_1")
    = Raise (AttributeError "_path_segments")
  /\ (loc ← __init__ "ns:path" None None false; getattr loc "thing_2")
     = Ok (PyStr "ns.path.thing_2")
  /\ (forall namespace version title external key,
        re_match CONVENTIONAL_RESOURCE_NAME namespace = true ->
        re_match CONVENTIONAL_RESOURCE_NAME key = true ->
        (loc ← __init__ namespace version title external; __getattr__ loc key)
        = Raise (AttributeError "_path_segments"))
  /\ (forall self path key,
        _abstract_path self = Bound (Some path) ->
        re_match CONVENTIONAL_RESOURCE_NAME key = true ->
        exists segments,
          get_path_segments self = Ok segments
          /\ __getattr__ self key
             = Ok (join "." ([_namespace self] ++ segments ++ [key])))
  /\ (forall self key,
        re_match CONVENTIONAL_RESOURCE_NAME key = false ->
        __getattr__ self key = Raise (AttributeError key)).
Proof.
  split; [vm_compute; reflexivity |].
  split; [vm_compute; reflexivity |].
  split; [| split].
  - intros namespace version title external key Hns Hkey.
    rewrite init_without_colon by now apply conventional_no_colon.
    assert (_check_name (fresh namespace version title external) namespace
            = Ok tt) as ->.
    { apply check_name_ok. split; [now apply conventional_is_valid | now left]. }
    cbn [mbind result_bind]. now apply getattr_without_path.
  - intros self path key. apply getattr_with_path.
  - intros self key Hkey. unfold __getattr__. now rewrite Hkey.
Qed.

(** The three names that the class only announces are found neither in the
    instance nor in the class. *)
Lemma announced_only (self : ResourceLocation) :
  getattr self "_version" = Raise (AttributeError "_version")
  /\ getattr self "_title" = Raise (AttributeError "_title")
  /\ getattr self "_external" = Raise (AttributeError "_external").
Proof. repeat split. Qed.

(** C5.  Bracket lookup reads the attribute named [_] followed by the field
    name.  It returns the namespace for ["namespace"] and, on a location with
    a path, the abstract path, the derived segments and the path for
    ["abstract_path"], ["path_segments"] and ["path"].  For ["version"],
    ["title"] and ["external"] it raises [AttributeError] on every instance,
    where the specification expects the stored value: the constructor stores
    these under the names without underscore.  On a location without a path
    ["abstract_path"], ["path_segments"] and ["path"] raise as well. *)
Theorem C5_bracket_lookup (self : ResourceLocation) :
  __getitem__ self "namespace" = Ok (PyStr (_namespace self))
  /\ __getitem__ self "version" = Raise (AttributeError "_version")
  /\ __getitem__ self "title" = Raise (AttributeError "_title")
  /\ __getitem__ self "external" = Raise (AttributeError "_external")
  /\ (forall path,
        _abstract_path self = Bound (Some path) ->
        __getitem__ self "abstract_path" = Ok (PyStr path)
        /\ exists segments,
             get_path_segments self = Ok segments
             /\ __getitem__ self "path_segments" = Ok (PyTuple segments)
             /\ __getitem__ self "path" = Ok (PyStr (join "/" segments)))
  /\ (_abstract_path self = Unbound ->
      __getitem__ self "abstract_path" = Raise (AttributeError "_abstract_path")
      /\ __getitem__ self "path_segments"
         = Raise (AttributeError "_path_segments")
      /\ __getitem__ self "path" = Raise (AttributeError "_path")).
Proof.
  split; [reflexivity |].
  destruct (announced_only self) as (Hv & Ht & He).
  split; [exact Hv |]. split; [exact Ht |]. split; [exact He |].
  split.
  - intros path Hpath. split.
    + unfold __getitem__, getattr, instance_dict. cbn. now rewrite Hpath.
    + destruct (segments_of_path self path Hpath) as (l & _ & Hsegs).
      eexists. split; [exact Hsegs |].
      pose proof (segments_not_nil _ _ _ Hpath Hsegs) as Hne.
      unfold get_path_segments in Hsegs.
      destruct (_path_segments self) as [segs|e] eqn:Hget.
      2: { destruct e; discriminate. }
      injection Hsegs as Hsegs. rewrite <- Hsegs in *. split.
      * unfold __getitem__, getattr, instance_dict. cbn. now rewrite Hget.
      * unfold __getitem__, getattr, instance_dict, _path, get_path_segments.
        cbn. rewrite Hget. cbn. destruct segs; [congruence | reflexivity].
  - intros Hpath. repeat split.
    + unfold __getitem__, getattr, instance_dict. cbn. now rewrite Hpath.
    + unfold __getitem__, getattr, instance_dict, _path_segments,
        get_abstract_path. cbn. now rewrite Hpath.
    + unfold __getitem__, getattr, instance_dict, _path, get_path_segments,
        _path_segments, get_abstract_path. cbn. now rewrite Hpath.
Qed.

(** What the constructor raises is what the loop of checks raises. *)
Lemma init_raises_loop (base : string) (version : option version_arg)
    (title : option string) (external : bool) (e : exn) :
  __init__ base version title external = Raise e <->
  for_each (_check_name (fresh "" None None external))
           (checked_names base external) = Raise e.
Proof.
  rewrite init_as_loop.
  destruct (partition ":" base) as [[namespace colon] path]. cbn zeta.
  change (_check_name (fresh namespace version title external))
    with (_check_name (fresh "" None None external)).
  destruct (for_each _ _) as [[]|e']; cbn [mbind result_bind];
    intuition congruence.
Qed.

(** The constructor raises exactly when one of the checked names fails a
    tier, and then it raises [ValueError] for one of them. *)
Lemma init_raises_iff (base : string) (version : option version_arg)
    (title : option string) (external : bool) :
  (exists e, __init__ base version title external = Raise e) <->
  exists name,
    In name (checked_names base external)
    /\ (re_match VALID_RESOURCE_NAME name = false
        \/ (re_match VALID_RESOURCE_NAME name = true
            /\ re_match CONVENTIONAL_RESOURCE_NAME name = false
            /\ external = false)).
Proof.
  split.
  - intros [e He]. apply init_raises_loop, for_each_raises in He
      as (before & name & after & Hnames & _ & Hname).
    exists name. split.
    + rewrite Hnames. apply in_or_app. right. now left.
    + apply check_name_raises in Hname. cbn [ResLoc.external fresh] in Hname.
      intuition.
  - intros (name & Hin & Hfails).
    destruct (for_each (_check_name (fresh "" None None external))
                (checked_names base external)) as [[]|e] eqn:Hloop.
    + exfalso. apply for_each_ok in Hloop.
      rewrite Forall_forall in Hloop. apply list_elem_of_In in Hin.
      apply Hloop, check_name_ok in Hin as [Hvalid Hconv].
      cbn [ResLoc.external fresh] in Hconv.
      destruct Hfails as [? | (_ & ? & ?)]; [congruence |].
      destruct Hconv; congruence.
    + exists e. now apply init_raises_loop.
Qed.

Lemma init_raises_value_error (base : string) (version : option version_arg)
    (title : option string) (external : bool) (e : exn) :
  __init__ base version title external = Raise e ->
  exists fault name,
    e = ValueError fault name /\ In name (checked_names base external).
Proof.
  intros He. apply init_raises_loop, for_each_raises in He
    as (before & name & after & Hnames & _ & Hname).
  assert (In name (checked_names base external)) as Hin.
  { rewrite Hnames. apply in_or_app. right. now left. }
  apply check_name_raises in Hname as [[_ ->] | (_ & _ & _ & ->)]; eauto.
Qed.

(** A name of the conventional grammar passes [_check_name]. *)
Lemma conventional_passes (self : ResourceLocation) (name : string) :
  re_match CONVENTIONAL_RESOURCE_NAME name = true ->
  _check_name self name = Ok tt.
Proof.
  intros H. apply check_name_ok.
  split; [now apply conventional_is_valid | now left].
Qed.

(** C6.  [_check_name] raises the invalid-name error for a name exactly when
    the name fails the permissive grammar, whatever [external] is, or passes
    it and fails the conventional grammar while [external] is false; a name
    of the conventional grammar never raises it.  The constructor raises
    exactly when one of the names it checks (the namespace, then the derived
    path segments) fails in that way, and raises nothing else.  The
    specification extends this to every [/] derivation; in the code a
    derivation never reaches the constructor: [ResourceLocation("ns:a") /
    "Bad"] raises [AttributeError] for [_external], not the invalid-name
    error. *)
Theorem C6_invalid_names :
  (forall self name e,
     _check_name self name = Raise e <->
     (re_match VALID_RESOURCE_NAME name = false
      /\ e = ValueError Invalid name)
     \/ (re_match VALID_RESOURCE_NAME name = true
         /\ re_match CONVENTIONAL_RESOURCE_NAME name = false
         /\ external self = false
         /\ e = ValueError Unconventional name))
  /\ (forall self name,
        re_match CONVENTIONAL_RESOURCE_NAME name = true ->
        _check_name self name = Ok tt)
  /\ (forall base version title external,
        (exists e, __init__ base version title external = Raise e) <->
        exists name,
          In name (checked_names base external)
          /\ (re_match VALID_RESOURCE_NAME name = false
              \/ (re_match VALID_RESOURCE_NAME name = true
                  /\ re_match CONVENTIONAL_RESOURCE_NAME name = false
                  /\ external = false)))
  /\ (forall base version title external e,
        __init__ base version title external = Raise e ->
        exists fault name,
          e = ValueError fault name /\ In name (checked_names base external))
  /\ (loc ← __init__ "ns:a" None None false; __truediv__ loc "Bad")
     = Raise (AttributeError "_external").
Proof.
  split; [exact check_name_raises |].
  split; [exact conventional_passes |].
  split; [exact init_raises_iff |].
  split; [exact init_raises_value_error |].
  vm_compute. reflexivity.
Qed.

(** [self == other] is the comparison of the two renderings. *)
Lemma eq_true_iff (a b : ResourceLocation) :
  __eq__ a b = Ok true <-> exists s, __str__ a = Ok s /\ __str__ b = Ok s.
Proof.
  unfold __eq__. split.
  - destruct (__str__ a) as [sa|ea]; [| discriminate].
    destruct (__str__ b) as [sb|eb]; [| discriminate].
    cbn [mbind result_bind]. intros [= Heq%String.eqb_eq]. subst sb. eauto.
  - intros (s & -> & ->). cbn [mbind result_bind].
    now rewrite String.eqb_refl.
Qed.

Lemma eq_false_iff (a b : ResourceLocation) :
  __eq__ a b = Ok false <->
  exists s t, __str__ a = Ok s /\ __str__ b = Ok t /\ s <> t.
Proof.
  unfold __eq__. split.
  - destruct (__str__ a) as [sa|ea]; [| discriminate].
    destruct (__str__ b) as [sb|eb]; [| discriminate].
    cbn [mbind result_bind]. intros [= Hne%String.eqb_neq]. eauto.
  - intros (s & t & -> & -> & Hne). cbn [mbind result_bind].
    apply String.eqb_neq in Hne. now rewrite Hne.
Qed.

(** The rendering does not read [version] or [title]. *)
Lemma str_reads (a b : ResourceLocation) :
  _namespace a = _namespace b ->
  _abstract_path a = _abstract_path b ->
  external a = external b ->
  __str__ a = __str__ b.
Proof.
  intros Hn Hp He. unfold __str__, get_path, _path.
  now rewrite (path_segments_reads a b He Hp), Hn.
Qed.

(** C7.  The specification expects two locations to be equal exactly when
    their renderings [namespace[:path]] are equal, with equal hashes.  The
    code does otherwise for locations made without a colon: their rendering
    raises, so [ResourceLocation("ns") == ResourceLocation("ns")] and
    [hash(ResourceLocation("ns"))] raise [AttributeError], and this holds
    for every conventional namespace.  What holds is the comparison of the
    renderings where they return: two instances compare equal exactly when
    both render to the same text, and unequal exactly when both render to
    different texts; instances that compare equal have the same hash,
    whatever the hash of texts is; [version] and [title] are not read by the
    rendering, so ["a:b"] with the title ["X"] equals ["a:b"] without one,
    and the two hash alike. *)
Theorem C7_equality_by_rendering (hash_str : string -> Z)
    (a b : ResourceLocation) :
  (__eq__ a b = Ok true <-> exists s, __str__ a = Ok s /\ __str__ b = Ok s)
  /\ (__eq__ a b = Ok false <->
      exists s t, __str__ a = Ok s /\ __str__ b = Ok t /\ s <> t)
  /\ (__eq__ a b = Ok true ->
      exists h, __hash__ hash_str a = Ok h /\ __hash__ hash_str b = Ok h)
  /\ (_namespace a = _namespace b ->
      _abstract_path a = _abstract_path b ->
      external a = external b ->
      __str__ a = __str__ b)
  /\ (titled ← __init__ "a:b" None (Some "X") false;
      plain ← __init__ "a:b" None None false;
      same ← __eq__ titled plain;
      h1 ← __hash__ hash_str titled;
      h2 ← __hash__ hash_str plain;
      Ok (same, Z.eqb h1 h2, __str__ titled)) = Ok (true, true, Ok "a:b")
  /\ (one ← __init__ "ns" None None false;
      other ← __init__ "ns" None None false;
      __eq__ one other) = Raise (AttributeError "_path")
  /\ (one ← __init__ "ns" None None false; __hash__ hash_str one)
     = Raise (AttributeError "_path")
  /\ (forall namespace version title external other,
        re_match CONVENTIONAL_RESOURCE_NAME namespace = true ->
        (one ← __init__ namespace version title external; __eq__ one other)
        = Raise (AttributeError "_path")
        /\ (one ← __init__ namespace version title external;
            __hash__ hash_str one)
           = Raise (AttributeError "_path")).
Proof.
  split; [apply eq_true_iff |]. split; [apply eq_false_iff |].
  split; [| split; [apply str_reads |]].
  - intros (s & Ha & Hb)%eq_true_iff. exists (hash_str s).
    unfold __hash__. now rewrite Ha, Hb.
  - split; [cbv -[Z.eqb]; now rewrite Z.eqb_refl |].
    split; [reflexivity |]. split; [reflexivity |].
    intros namespace version title external other Hconv.
    rewrite init_without_colon by now apply conventional_no_colon.
    rewrite (conventional_passes _ _ Hconv). cbn [mbind result_bind].
    unfold __eq__, __hash__.
    rewrite (unbound_str (fresh namespace version title external) eq_refl).
    split; reflexivity.
Qed.

(** C8.  The specification expects [loc / suffix] to give a fresh location
    with the extended abstract path, the namespace and the external flag of
    [loc], and no version or title.  In the code no division returns: on
    every instance it raises [AttributeError], for [_abstract_path] when the
    location was made without a colon, and otherwise for [_external], a name
    that no instance has; so [ResourceLocation("ns:a") / "b"] raises. *)
Theorem C8_truediv_raises (self : ResourceLocation) (other : string) :
  __truediv__ self other =
    Raise (AttributeError
             match _abstract_path self with
             | Unbound => "_abstract_path"
             | Bound _ => "_external"
             end)
  /\ (loc ← __init__ "ns:a" None None false; __truediv__ loc "b")
     = Raise (AttributeError "_external").
Proof.
  split; [| vm_compute; reflexivity].
  unfold __truediv__, get_abstract_path, get_external, not_found.
  destruct (_abstract_path self) as [|[path|]]; cbn [mbind result_bind];
    [reflexivity | | reflexivity].
  cbn [truthy_opt]. now destruct (truthy path).
Qed.

(** With [external] true the derived segments are the segments of the
    abstract path. *)
Lemma external_keeps_segments (self : ResourceLocation) (path : string) :
  external self = true ->
  _abstract_path self = Bound (Some path) ->
  get_path_segments self = Ok (split "/" path).
Proof.
  intros He Hp. destruct (segments_of_path self path Hp) as (l & _ & ->).
  now rewrite He.
Qed.

(** C9.  The specification expects [ResourceLocation("ns:api",
    external=True) / "_test"] to render as ["ns:api/_test"].  In the code
    the division raises [AttributeError] for [_external].  What the flag
    does in the constructor is as the specification says: with [external]
    true the segments are not rewritten and a name that fails only the
    conventional grammar is accepted, so the location made directly from
    ["ns:api/_test"] renders as that text. *)
Theorem C9_external_extension :
  (api ← __init__ "ns:api" None None true; __truediv__ api "_test")
    = Raise (AttributeError "_external")
  /\ (loc ← __init__ "ns:api/_test" None None true; __str__ loc)
     = Ok "ns:api/_test"
  /\ (forall self path,
        external self = true ->
        _abstract_path self = Bound (Some path) ->
        get_path_segments self = Ok (split "/" path))
  /\ (forall self name,
        external self = true ->
        re_match VALID_RESOURCE_NAME name = true ->
        _check_name self name = Ok tt).
Proof.
  split; [vm_compute; reflexivity |].
  split; [vm_compute; reflexivity |].
  split; [exact external_keeps_segments |].
  intros self name He Hv. apply check_name_ok. auto.
Qed.

End ResourceLocationSpec.

(** ** The plugin *)

Module BeetPluginSpec.

Import PyStr BeetPlugin.

(** A loop over the generator that ends without an exception leaves the
    generator with nothing to produce. *)
Lemma for_remaining_exhausts (body : Path -> State -> res unit * State)
    (remaining : list Path) :
  forall st st',
    for_remaining body remaining st = (Ok tt, st') -> pack_paths st' = [].
Proof.
  induction remaining as [|p rest IH]; simpl; intros st st'.
  - now intros [= <-].
  - destruct (body p (set_pack_paths rest st)) as [[[]|e] st1]; [| discriminate].
    apply IH.
Qed.

(** What a loop keeps: a property of the state that taking a path out of the
    generator and running the body both keep. *)
Lemma for_remaining_keeps (P : State -> Prop)
    (body : Path -> State -> res unit * State) :
  (forall paths st, P st -> P (set_pack_paths paths st)) ->
  (forall p st r st', P st -> body p st = (r, st') -> P st') ->
  forall remaining st r st',
    P st -> for_remaining body remaining st = (r, st') -> P st'.
Proof.
  intros Hset Hbody remaining.
  induction remaining as [|p rest IH]; simpl; intros st r st' HP.
  - intros [= <- <-]. now apply Hset.
  - destruct (body p (set_pack_paths rest st)) as [[[]|e] st1] eqn:Hb.
    + apply IH. eapply Hbody; [| exact Hb]. now apply Hset.
    + intros [= <- <-]. eapply Hbody; [| exact Hb]. now apply Hset.
Qed.

(** The first loop calls neither [logger] nor [ctx.require]. *)
Lemma read_config_quiet (w : World) (p : Path) (st : State)
    (r : res unit) (st' : State) :
  required st = [] /\ logged st = [] ->
  read_config w p st = (r, st') ->
  required st' = [] /\ logged st' = [].
Proof.
  intros H. unfold read_config.
  destruct (negb (is_dir w p)); [now intros [= <- <-] |].
  destruct (negb (valid_path w p)); [now intros [= <- <-] |].
  destruct (negb (is_file w _)); [now intros [= <- <-] |].
  destruct (_ ≫= _) as [config|e]; now intros [= <- <-].
Qed.

(** On a generator with nothing left the second loop does nothing. *)
Lemma build_nothing (w : World) (st : State) :
  pack_paths st = [] -> for_pack_paths (build w) st = (Ok tt, st).
Proof.
  intros H. unfold for_pack_paths. rewrite H. simpl.
  destruct st as [paths configs log req]. simpl in H. now subst paths.
Qed.

(** C10.  In [beet_default] the paths come from a generator that the first
    loop uses up: whenever the first loop ends without an exception the
    generator has nothing left, and the second loop returns at once, leaving
    the state as it found it.  So, for every pattern and every content of
    the file system, [ctx.require] is never called and nothing is logged as
    being built, also when every pack that was found is valid. *)
Theorem C10_no_pack_is_built (w : World) :
  required (snd (beet_default w)) = []
  /\ logged (snd (beet_default w)) = []
  /\ (forall paths st,
        glob w (pack_pattern w) = Ok paths ->
        for_pack_paths (read_config w) (initial_state paths) = (Ok tt, st) ->
        pack_paths st = []
        /\ for_pack_paths (build w) st = (Ok tt, st)
        /\ beet_default w = (Ok tt, st)).
Proof.
  assert (forall paths r st,
            for_pack_paths (read_config w) (initial_state paths) = (r, st) ->
            required st = [] /\ logged st = []) as Hquiet.
  { intros paths r st.
    apply (for_remaining_keeps (fun s => required s = [] /\ logged s = [])).
    - now intros ? ? [? ?].
    - intros p s r' s'. apply read_config_quiet.
    - now split. }
  assert (forall paths st,
            for_pack_paths (read_config w) (initial_state paths) = (Ok tt, st) ->
            for_pack_paths (build w) st = (Ok tt, st)) as Hsecond.
  { intros paths st Hfirst. apply build_nothing.
    now apply for_remaining_exhausts in Hfirst. }
  assert (required (snd (beet_default w)) = []
          /\ logged (snd (beet_default w)) = []) as [Hreq Hlog].
  { unfold beet_default.
    destruct (glob w (pack_pattern w)) as [paths|e]; [| now split].
    destruct (for_pack_paths (read_config w) (initial_state paths))
      as [[[]|e] st] eqn:Hfirst.
    - rewrite (Hsecond _ _ Hfirst). now apply Hquiet in Hfirst.
    - now apply Hquiet in Hfirst. }
  split; [exact Hreq |]. split; [exact Hlog |].
  intros paths st Hglob Hfirst. split; [| split].
  - now apply for_remaining_exhausts in Hfirst.
  - now apply Hsecond with paths.
  - unfold beet_default. rewrite Hglob, Hfirst. now apply Hsecond with paths.
Qed.

(** The project with one valid pack: the first loop reads its configuration,
    [beet_default] ends without an exception and has required nothing, while
    the second loop run over the list of the paths requires the pack. *)
Example one_pack_is_not_built :
  pack_configs (snd (beet_default one_pack)) !! "datapacks/1.20/graves"
    = Some (YMap [(YText "title", YText "Graves");
                  (YText "version", YText "3.1.0")])
  /\ fst (beet_default one_pack) = Ok tt
  /\ required (snd (beet_default one_pack)) = []
  /\ map sub_id
       (required
          (snd (build_all one_pack ["datapacks/1.20/graves"]
                  (snd (beet_default one_pack)))))
     = ["graves"].
Proof. repeat split; vm_compute; reflexivity. Qed.

End BeetPluginSpec.

(** ** What the constructor accepts, and what it returns *)

Module ConstructionFacts.

Import PyStr Re PyStrFacts ReFacts ResLoc NameFacts ResLocFacts.

(** Joining the pieces of a split with the separator gives the text back. *)
Lemma join_split (sep : ascii) (s : string) :
  join (String sep "") (split sep s) = s.
Proof.
  unfold split. induction s as [|a s IH]; [reflexivity |].
  cbn [split_pieces]. destruct (split_pieces sep s) as [piece pieces].
  destruct (Ascii.eqb_spec a sep) as [->|Hne].
  - cbn [join]. cbn [join] in IH. rewrite IH. reflexivity.
  - destruct pieces as [|p ps].
    + cbn [join] in *. now rewrite IH.
    + cbn [join] in *. rewrite <- IH. reflexivity.
Qed.

(** The two outcomes of [partition]: the colon was found, or it was not. *)
Lemma partition_cases (base : string) :
  (exists namespace path,
     partition ":" base = (namespace, ":", path)
     /\ base = namespace +:+ ":" +:+ path
     /\ mem ":" namespace = false
     /\ mem ":" base = true)
  \/ (partition ":" base = (base, "", "") /\ mem ":" base = false).
Proof.
  unfold partition. destruct (cut ":" base) as [[before after]|] eqn:Hcut.
  - left. exists before, after.
    destruct (cut_present _ _ _ _ Hcut) as [-> Hb].
    repeat split; [assumption |].
    rewrite mem_append. cbn [mem]. rewrite Ascii.eqb_refl.
    now rewrite orb_true_r.
  - right. split; [reflexivity |].
    clear -Hcut. induction base as [|a s IH]; [reflexivity |].
    cbn [cut mem] in *. destruct (Ascii.eqb a ":"); [discriminate |].
    destruct (cut ":" s) as [[b t]|]; [discriminate |]. now rewrite IH.
Qed.

Lemma check_name_passes (self : ResourceLocation) (name : string) :
  _check_name self name = Ok tt <-> name_passes (external self) name = true.
Proof.
  rewrite check_name_ok. unfold name_passes.
  rewrite andb_true_iff, orb_true_iff. reflexivity.
Qed.

Lemma private_path_fails (external : bool) :
  name_passes external PRIVATE_PATH = false.
Proof. now destruct external. Qed.

Lemma underscore_fails (name : string) :
  startswith "_" name = true -> name_passes false name = false.
Proof.
  intros H. unfold name_passes.
  rewrite (underscore_not_conventional _ H). apply andb_false_r.
Qed.

Lemma last_in (xs : list string) (x : string) : last xs = Some x -> In x xs.
Proof.
  intros H. apply last_Some in H as [l' ->].
  apply in_or_app. right. now left.
Qed.

(** Whether every checked name passes can be read off the names of the base
    text: when the rewrite applies, the private prefix fails among the
    checked names, and the segment with the leading underscore fails among
    the names of the text. *)
Lemma checked_names_pass (base : string) (external : bool) :
  forallb (name_passes external) (checked_names base external)
  = forallb (name_passes external) (base_names base).
Proof.
  unfold checked_names, base_names.
  destruct (partition ":" base) as [[namespace colon] path].
  destruct (truthy colon); [| reflexivity].
  destruct (segments_of_path
              (assign_abstract_path (fresh namespace None None external) path)
              path eq_refl) as (l & Hl & ->).
  cbn [ResLoc.external assign_abstract_path fresh].
  destruct external; cbn [negb andb]; [reflexivity |].
  destruct (startswith "_" l) eqn:Hu; [| reflexivity].
  cbn [forallb]. rewrite private_path_fails. cbn [andb].
  rewrite andb_false_r. symmetry. rewrite andb_false_iff. right.
  apply not_true_is_false. intros Hall.
  rewrite forallb_forall in Hall.
  specialize (Hall l (last_in _ _ Hl)).
  now rewrite (underscore_fails _ Hu) in Hall.
Qed.

(** The constructor returns exactly when every name of the base text
    passes, and then it returns [constructed]. *)
Lemma init_ok_iff (base : string) (version : option version_arg)
    (title : option string) (external : bool) (self : ResourceLocation) :
  __init__ base version title external = Ok self <->
  forallb (name_passes external) (base_names base) = true
  /\ self = constructed base version title external.
Proof.
  rewrite <- checked_names_pass, init_as_loop. unfold constructed.
  destruct (partition ":" base) as [[namespace colon] path]. cbn zeta.
  destruct (for_each _ _) as [[]|e] eqn:Hloop; cbn [mbind result_bind].
  - apply for_each_ok in Hloop.
    assert (forallb (name_passes external) (checked_names base external)
            = true) as ->.
    { apply forallb_forall. intros name Hin.
      rewrite Forall_forall in Hloop. apply list_elem_of_In in Hin.
      now apply Hloop, check_name_passes in Hin. }
    intuition congruence.
  - split; [discriminate |]. intros [Hall _]. exfalso.
    assert (for_each (_check_name (fresh namespace version title external))
              (checked_names base external) = Ok tt) as Hok;
      [| congruence].
    apply for_each_ok, Forall_forall. intros name Hin.
    apply check_name_passes. rewrite forallb_forall in Hall.
    apply Hall. now apply list_elem_of_In.
Qed.

(** On a constructed location the derived segments are the segments of the
    abstract path, whatever [external] is. *)
Lemma constructed_segments (base : string) (version : option version_arg)
    (title : option string) (external : bool) (self : ResourceLocation)
    (namespace path : string) :
  __init__ base version title external = Ok self ->
  partition ":" base = (namespace, ":", path) ->
  self = assign_abstract_path (fresh namespace version title external) path
  /\ get_path_segments self = Ok (split "/" path).
Proof.
  intros [Hall ->]%init_ok_iff Hbase. unfold constructed, base_names in *.
  rewrite Hbase in *. cbn [truthy] in *. split; [reflexivity |].
  destruct (segments_of_path
              (assign_abstract_path (fresh namespace version title external) path)
              path eq_refl) as (l & Hl & ->).
  cbn [ResLoc.external assign_abstract_path fresh].
  destruct external; cbn [negb andb]; [reflexivity |].
  destruct (startswith "_" l) eqn:Hu; [| reflexivity].
  exfalso. cbn [forallb] in Hall. apply andb_true_iff in Hall as [_ Hall].
  rewrite forallb_forall in Hall. specialize (Hall l (last_in _ _ Hl)).
  now rewrite (underscore_fails _ Hu) in Hall.
Qed.

(** A constructed location with a path renders as its base text. *)
Lemma constructed_str (base : string) (version : option version_arg)
    (title : option string) (external : bool) (self : ResourceLocation) :
  __init__ base version title external = Ok self ->
  mem ":" base = true ->
  __str__ self = Ok base.
Proof.
  intros Hinit Hcolon.
  destruct (partition_cases base)
    as [(namespace & path & Hbase & Heq & _) | [_ Hno]]; [| congruence].
  destruct (constructed_segments _ _ _ _ _ _ _ Hinit Hbase) as [Hself Hsegs].
  unfold __str__, get_path, _path. rewrite Hsegs. cbn [mbind result_bind].
  pose proof (split_not_nil "/" path) as Hne.
  destruct (split "/" path) as [|seg segs] eqn:Hsplit; [congruence |].
  cbn [or_not_found mbind result_bind fmt default].
  rewrite <- Hsplit, join_split, Hself. cbn [_namespace assign_abstract_path fresh].
  now rewrite Heq.
Qed.

(** A constructed location without a path has no [_abstract_path]. *)
Lemma constructed_unbound (base : string) (version : option version_arg)
    (title : option string) (external : bool) (self : ResourceLocation) :
  __init__ base version title external = Ok self ->
  mem ":" base = false ->
  _abstract_path self = Unbound.
Proof.
  intros [_ ->]%init_ok_iff Hno. unfold constructed.
  now rewrite (partition_absent _ _ Hno).
Qed.

(** The rendering raises nothing but [AttributeError] for [_path], and it
    raises exactly on a location without [_abstract_path]. *)
Lemma str_cases (self : ResourceLocation) :
  (_abstract_path self = Unbound
   /\ __str__ self = Raise (AttributeError "_path"))
  \/ (exists v s, _abstract_path self = Bound v /\ __str__ self = Ok s).
Proof.
  destruct (_abstract_path self) as [|[path|]] eqn:Hp.
  - left. split; [reflexivity | now apply unbound_str].
  - right. exists (Some path).
    destruct (segments_of_path self path Hp) as (l & _ & Hsegs).
    destruct (get_path_segments self) as [segs|e] eqn:Hget; [| discriminate].
    pose proof (segments_not_nil _ _ _ Hp Hget) as Hne.
    unfold __str__, get_path, _path. rewrite Hget.
    cbn [mbind result_bind].
    destruct segs as [|seg segs]; [congruence |].
    cbn [or_not_found mbind result_bind]. eauto.
  - right. exists None, (_namespace self). split; [reflexivity |].
    unfold __str__, get_path, _path, get_path_segments, _path_segments,
      get_abstract_path. now rewrite Hp.
Qed.

End ConstructionFacts.

(** ** The shape of conventional names *)

Module GrammarFacts.

Import PyStr Re PyStrFacts ReFacts ResLoc NameFacts.

Lemma append_assoc (s t u : string) : (s +:+ t) +:+ u = s +:+ (t +:+ u).
Proof. induction s as [|a s IH]; simpl; [reflexivity | now rewrite IH]. Qed.

Lemma lang_cat_inv (r1 r2 : regex) (s : string) :
  lang (Cat r1 r2) s ->
  exists s1 s2, s = s1 +:+ s2 /\ lang r1 s1 /\ lang r2 s2.
Proof. intros H. inversion H; subst. eauto. Qed.

Lemma group_lang (g : string) :
  group g = true <-> lang (Plus (Class lower_or_digit)) g.
Proof.
  rewrite lang_plus_class. unfold group. rewrite andb_true_iff.
  destruct g; simpl; intuition congruence.
Qed.

(** One repetition of [(?:_[a-z0-9]+)]: an underscore and a group. *)
Lemma underscore_group_lang (w : string) :
  lang (Cat (Class (Ascii.eqb "_")) (Plus (Class lower_or_digit))) w <->
  exists g, w = String "_" g /\ group g = true.
Proof.
  split.
  - intros (s1 & s2 & -> & H1 & H2)%lang_cat_inv.
    inversion H1 as [ | p c Hc | | | | | ]; subst.
    apply Ascii.eqb_eq in Hc. subst c.
    exists s2. split; [reflexivity | now apply group_lang].
  - intros (g & -> & Hg). change (String "_" g) with (String "_" "" +:+ g).
    constructor; [now constructor | now apply group_lang].
Qed.

(** The words of [(?:_[a-z0-9]+)*]: nothing, or an underscore in front of
    groups joined by underscores. *)
Lemma tail_lang_inv (r : regex) (t : string) :
  lang r t ->
  r = Star (Cat (Class (Ascii.eqb "_")) (Plus (Class lower_or_digit))) ->
  t = ""
  \/ exists g gs,
       forallb group (g :: gs) = true /\ t = String "_" (join "_" (g :: gs)).
Proof.
  induction 1 as [ | | | | | r | r s1 s2 H1 _ H2 IH2 ]; try discriminate.
  - now left.
  - intros Hr. injection Hr as ->. right.
    apply underscore_group_lang in H1 as (g & -> & Hg).
    destruct (IH2 eq_refl) as [-> | (g' & gs & Hall & ->)].
    + exists g, []. cbn [forallb join]. rewrite Hg.
      now rewrite append_empty_r.
    + exists g, (g' :: gs). split.
      * cbn [forallb] in *. now rewrite Hg, Hall.
      * reflexivity.
Qed.

Lemma tail_lang (gs : list string) :
  forall g,
    forallb group (g :: gs) = true ->
    lang (Star (Cat (Class (Ascii.eqb "_")) (Plus (Class lower_or_digit))))
         (String "_" (join "_" (g :: gs))).
Proof.
  induction gs as [|g' gs IH]; intros g Hall; cbn [forallb] in Hall.
  - rewrite andb_true_r in Hall. cbn [join].
    rewrite <- (append_empty_r (String "_" g)).
    constructor; [| constructor]. apply underscore_group_lang. eauto.
  - apply andb_true_iff in Hall as [Hg Hall].
    change (String "_" (join "_" (g :: g' :: gs)))
      with (String "_" g +:+ String "_" (join "_" (g' :: gs))).
    constructor; [apply underscore_group_lang; eauto | now apply IH].
Qed.

(** The words of the conventional grammar are the groups joined by single
    underscores. *)
Lemma conventional_lang (s : string) :
  lang CONVENTIONAL_RESOURCE_NAME s <->
  exists g gs, forallb group (g :: gs) = true /\ s = join "_" (g :: gs).
Proof.
  split.
  - intros (s1 & t & -> & H1 & H2)%lang_cat_inv.
    apply group_lang in H1.
    destruct (tail_lang_inv _ _ H2 eq_refl) as [-> | (g & gs & Hall & ->)].
    + exists s1, []. cbn [forallb join]. rewrite H1.
      now rewrite append_empty_r.
    + exists s1, (g :: gs). split; [| reflexivity].
      cbn [forallb] in *. now rewrite H1, Hall.
  - intros (g & gs & Hall & ->).
    destruct gs as [|g' gs].
    + cbn [forallb join] in *. rewrite andb_true_r in Hall.
      rewrite <- (append_empty_r g).
      constructor; [now apply group_lang | constructor].
    + cbn [forallb] in Hall. apply andb_true_iff in Hall as [Hg Hall].
      change (join "_" (g :: g' :: gs))
        with (g +:+ String "_" (join "_" (g' :: gs))).
      constructor; [now apply group_lang | now apply tail_lang].
Qed.

End GrammarFacts.

(** ** Further properties of resource locations *)

Module ResourceLocationMore.

Import PyStr Re PyStrFacts ReFacts ResLoc NameFacts ResLocFacts.
Import ConstructionFacts GrammarFacts.

(** The names that match [CONVENTIONAL_RESOURCE_NAME] are the groups of
    lowercase letters and digits joined by single underscores, with or
    without one line feed behind them: no underscore in front, at the end
    or doubled, and no dot or dash. *)
Theorem conventional_names_are_joined_groups (name : string) :
  re_match CONVENTIONAL_RESOURCE_NAME name = true <->
  exists g gs,
    forallb group (g :: gs) = true
    /\ (name = join "_" (g :: gs)
        \/ name = join "_" (g :: gs) +:+ String line_feed "").
Proof.
  rewrite re_match_lang. split.
  - intros [H | (t & -> & H)];
      apply conventional_lang in H as (g & gs & Hall & ->); eauto 6.
  - intros (g & gs & Hall & [-> | ->]).
    + left. apply conventional_lang. eauto.
    + right. eexists. split; [reflexivity |]. apply conventional_lang. eauto.
Qed.

(** The two tiers of [_check_name] collapse to one grammar each way: for a
    location that is not external a name passes exactly when it matches
    [CONVENTIONAL_RESOURCE_NAME] (the permissive tier rejects nothing that
    the conventional one accepts), and for an external one exactly when it
    matches [VALID_RESOURCE_NAME]. *)
Theorem check_name_is_one_grammar (self : ResourceLocation) (name : string) :
  (_check_name self name = Ok tt <->
   re_match (if external self then VALID_RESOURCE_NAME
             else CONVENTIONAL_RESOURCE_NAME) name = true)
  /\ (external self = false ->
      re_match CONVENTIONAL_RESOURCE_NAME name = false ->
      exists fault, _check_name self name = Raise (ValueError fault name)).
Proof.
  split.
  - rewrite check_name_ok. destruct (external self).
    + intuition.
    + split; [intros [_ [H | H]]; congruence |].
      intros H. split; [now apply conventional_is_valid | now left].
  - intros He Hc. unfold _check_name. rewrite He, Hc.
    destruct (re_match VALID_RESOURCE_NAME name); cbn; eauto.
Qed.

(** A name that passes [_check_name] contains neither a colon nor a slash,
    so the separators of a rendering can only be the ones that the rendering
    puts in. *)
Theorem checked_name_has_no_separator (self : ResourceLocation)
    (name : string) :
  _check_name self name = Ok tt ->
  mem ":" name = false /\ mem "/" name = false.
Proof.
  intros [Hvalid _]%check_name_ok.
  split; now apply valid_excludes.
Qed.

Lemma checked_name_has_no_separator_witness :
  _check_name (fresh "ns" None None false) "a_b" = Ok tt
  /\ mem ":" "a_b" = false /\ mem "/" "a_b" = false.
Proof.
  split; [reflexivity |].
  apply (checked_name_has_no_separator (fresh "ns" None None false) "a_b").
  reflexivity.
Defined.

(** [$] of the patterns also matches before a final line feed: a namespace
    of the conventional grammar followed by one line feed is accepted by the
    constructor, and stored with the line feed. *)
Theorem trailing_line_feed_is_accepted (namespace : string)
    (version : option version_arg) (title : option string) (external : bool) :
  fullmatch CONVENTIONAL_RESOURCE_NAME namespace = true ->
  __init__ (namespace +:+ String line_feed "") version title external
  = Ok (fresh (namespace +:+ String line_feed "") version title external).
Proof.
  intros Hfull.
  assert (re_match CONVENTIONAL_RESOURCE_NAME
            (namespace +:+ String line_feed "") = true) as Hconv.
  { apply re_match_lang. right. exists namespace.
    split; [reflexivity | now apply fullmatch_lang]. }
  rewrite init_without_colon by now apply conventional_no_colon.
  assert (_check_name
            (fresh (namespace +:+ String line_feed "") version title external)
            (namespace +:+ String line_feed "") = Ok tt) as ->;
    [| reflexivity].
  apply check_name_ok. split; [now apply conventional_is_valid | now left].
Qed.

Lemma trailing_line_feed_is_accepted_witness :
  fullmatch CONVENTIONAL_RESOURCE_NAME "ns" = true
  /\ __init__ ("ns" +:+ String line_feed "") None None false
     = Ok (fresh ("ns" +:+ String line_feed "") None None false).
Proof.
  split; [reflexivity |].
  apply (trailing_line_feed_is_accepted "ns" None None false). reflexivity.
Defined.

(** What the constructor accepts is decided by the names as they are
    written in the base text: it returns exactly when the namespace and, if
    there is a colon, every segment of the path between slashes pass the two
    tiers, and otherwise it raises [ValueError] for one of the names it
    checks.  In particular a base that is not external and whose last
    segment starts with an underscore is always refused. *)
Theorem construction_by_written_names (base : string)
    (version : option version_arg) (title : option string) (external : bool) :
  (forallb (name_passes external) (base_names base) = true ->
   __init__ base version title external
   = Ok (constructed base version title external))
  /\ (forallb (name_passes external) (base_names base) = false ->
      exists fault name,
        __init__ base version title external = Raise (ValueError fault name)
        /\ In name (checked_names base external)
        /\ name_passes external name = false).
Proof.
  split.
  - intros Hall. now apply init_ok_iff.
  - intros Hall.
    destruct (__init__ base version title external) as [self|e] eqn:Hinit.
    + apply init_ok_iff in Hinit as [Hok _]. congruence.
    + apply ResourceLocationSpec.init_raises_loop, for_each_raises in Hinit
        as (before & name & after & Hnames & _ & Hname).
      assert (In name (checked_names base external)) as Hin.
      { rewrite Hnames. apply in_or_app. right. now left. }
      assert (name_passes external name = false) as Hfails.
      { apply not_true_is_false. intros Hp.
        apply (check_name_passes (fresh "" None None external)) in Hp.
        congruence. }
      apply check_name_raises in Hname as [[_ ->] | (_ & _ & _ & ->)]; eauto.
Qed.

(** Parsing and rendering are inverse on locations with a path: a location
    that the constructor returns for a base with a colon renders as that
    base, and constructing from the rendering gives the location back. *)
Theorem rendering_round_trip (base : string) (version : option version_arg)
    (title : option string) (external : bool) (self : ResourceLocation) :
  __init__ base version title external = Ok self ->
  mem ":" base = true ->
  __str__ self = Ok base
  /\ (rendering ← __str__ self; __init__ rendering version title external)
     = Ok self.
Proof.
  intros Hinit Hcolon.
  pose proof (constructed_str _ _ _ _ _ Hinit Hcolon) as Hstr.
  split; [exact Hstr |]. rewrite Hstr. exact Hinit.
Qed.

Lemma rendering_round_trip_witness :
  __init__ "ns:a/b" None None false
    = Ok (assign_abstract_path (fresh "ns" None None false) "a/b")
  /\ mem ":" "ns:a/b" = true
  /\ __str__ (assign_abstract_path (fresh "ns" None None false) "a/b")
     = Ok "ns:a/b"
  /\ (rendering ←
        __str__ (assign_abstract_path (fresh "ns" None None false) "a/b");
      __init__ rendering None None false)
     = Ok (assign_abstract_path (fresh "ns" None None false) "a/b").
Proof.
  split; [reflexivity |]. split; [reflexivity |].
  apply (rendering_round_trip "ns:a/b" None None false); reflexivity.
Defined.

(** Two constructed locations with paths compare equal exactly when their
    base texts are the same text, whatever their version, title and external
    flag are; and the hash of such a location is the hash of its base. *)
Theorem equality_of_constructed_is_equality_of_bases (hash_str : string -> Z)
    (base1 base2 : string) (version1 version2 : option version_arg)
    (title1 title2 : option string) (external1 external2 : bool)
    (a b : ResourceLocation) :
  __init__ base1 version1 title1 external1 = Ok a ->
  __init__ base2 version2 title2 external2 = Ok b ->
  mem ":" base1 = true ->
  mem ":" base2 = true ->
  __eq__ a b = Ok (String.eqb base1 base2)
  /\ __hash__ hash_str a = Ok (hash_str base1)
  /\ __hash__ hash_str b = Ok (hash_str base2).
Proof.
  intros Ha Hb H1 H2.
  unfold __eq__, __hash__.
  rewrite (constructed_str _ _ _ _ _ Ha H1), (constructed_str _ _ _ _ _ Hb H2).
  repeat split.
Qed.

Lemma equality_of_constructed_is_equality_of_bases_witness :
  __init__ "a:b" None (Some "X") true
    = Ok (assign_abstract_path (fresh "a" None (Some "X") true) "b")
  /\ __init__ "a:c" None None false
     = Ok (assign_abstract_path (fresh "a" None None false) "c")
  /\ mem ":" "a:b" = true
  /\ mem ":" "a:c" = true
  /\ __eq__ (assign_abstract_path (fresh "a" None (Some "X") true) "b")
            (assign_abstract_path (fresh "a" None None false) "c")
     = Ok (String.eqb "a:b" "a:c")
  /\ __hash__ (Z.of_nat ∘ String.length)
       (assign_abstract_path (fresh "a" None (Some "X") true) "b")
     = Ok ((Z.of_nat ∘ String.length) "a:b")
  /\ __hash__ (Z.of_nat ∘ String.length)
       (assign_abstract_path (fresh "a" None None false) "c")
     = Ok ((Z.of_nat ∘ String.length) "a:c").
Proof.
  do 4 (split; [reflexivity |]).
  apply (equality_of_constructed_is_equality_of_bases
           (Z.of_nat ∘ String.length) "a:b" "a:c" None None (Some "X") None
           true false); reflexivity.
Defined.

(** Comparison is symmetric, also in what it raises, and transitive, and a
    location equals itself exactly when [_abstract_path] is assigned: on a
    location made without a colon the comparison with itself raises. *)
Theorem equality_is_a_partial_equivalence :
  (forall a b, __eq__ a b = __eq__ b a)
  /\ (forall a b c,
        __eq__ a b = Ok true -> __eq__ b c = Ok true -> __eq__ a c = Ok true)
  /\ (forall a,
        __eq__ a a = Ok true <-> exists v, _abstract_path a = Bound v)
  /\ (forall a,
        _abstract_path a = Unbound ->
        __eq__ a a = Raise (AttributeError "_path")).
Proof.
  split; [| split; [| split]].
  - intros a b. unfold __eq__.
    destruct (str_cases a) as [[_ ->] | (va & sa & _ & ->)],
      (str_cases b) as [[_ ->] | (vb & sb & _ & ->)];
      cbn [mbind result_bind]; try reflexivity.
    now rewrite String.eqb_sym.
  - intros a b c. unfold __eq__.
    destruct (__str__ a) as [sa|]; [| discriminate].
    destruct (__str__ b) as [sb|]; [| discriminate].
    destruct (__str__ c) as [sc|]; [| discriminate].
    cbn [mbind result_bind].
    intros [= ->%String.eqb_eq] [= ->%String.eqb_eq].
    now rewrite String.eqb_refl.
  - intros a. unfold __eq__.
    destruct (str_cases a) as [[Hu ->] | (v & s & Hb & ->)];
      cbn [mbind result_bind].
    + split; [discriminate |]. intros [v Hv]. congruence.
    + rewrite String.eqb_refl. split; eauto.
  - intros a Hu. unfold __eq__. now rewrite (unbound_str _ Hu).
Qed.

(** A location constructed from a base without a colon can be neither
    compared nor hashed: [==] with any location, on either side, and [hash]
    raise [AttributeError]. *)
Theorem location_without_path_is_not_comparable (hash_str : string -> Z)
    (base : string) (version : option version_arg) (title : option string)
    (external : bool) (self other : ResourceLocation) :
  __init__ base version title external = Ok self ->
  mem ":" base = false ->
  __eq__ self other = Raise (AttributeError "_path")
  /\ __eq__ other self = Raise (AttributeError "_path")
  /\ __hash__ hash_str self = Raise (AttributeError "_path").
Proof.
  intros Hinit Hno.
  pose proof (unbound_str _ (constructed_unbound _ _ _ _ _ Hinit Hno)) as Hstr.
  unfold __eq__, __hash__. rewrite Hstr. repeat split.
  now destruct (str_cases other) as [[_ ->] | (v & s & _ & ->)].
Qed.

Lemma location_without_path_is_not_comparable_witness :
  __init__ "ns" None None false = Ok (fresh "ns" None None false)
  /\ mem ":" "ns" = false
  /\ __eq__ (fresh "ns" None None false) (fresh "ns" None None false)
     = Raise (AttributeError "_path")
  /\ __eq__ (fresh "ns" None None false) (fresh "ns" None None false)
     = Raise (AttributeError "_path")
  /\ __hash__ (fun _ => 0%Z) (fresh "ns" None None false)
     = Raise (AttributeError "_path").
Proof.
  do 2 (split; [reflexivity |]).
  apply (location_without_path_is_not_comparable (fun _ => 0%Z) "ns" None None
           false); reflexivity.
Defined.

Lemma eqb_underscore (key rest : string) :
  startswith "_" key = false -> String.eqb key (String "_" rest) = false.
Proof.
  destruct key as [|c key]; [reflexivity |]. cbn [startswith String.eqb].
  now intros ->.
Qed.

(** Attribute-style lookup of a key of the conventional grammar reaches
    [__getattr__], and so gives the dotted symbol, for every key but
    ["version"], ["title"] and ["external"]: these are attributes of the
    instance, and their lookup returns the stored value. *)
Theorem attribute_lookup_of_conventional_keys (self : ResourceLocation)
    (key : string) :
  re_match CONVENTIONAL_RESOURCE_NAME key = true ->
  getattr self key =
    if String.eqb key "version" then Ok (py_option PyVersion (version self))
    else if String.eqb key "title" then Ok (py_option PyStr (title self))
    else if String.eqb key "external" then Ok (PyBool (external self))
    else PyStr <$> __getattr__ self key.
Proof.
  intros Hkey.
  assert (startswith "_" key = false) as Hu.
  { destruct (startswith "_" key) eqn:Hs; [| reflexivity].
    now rewrite (underscore_not_conventional _ Hs) in Hkey. }
  unfold getattr, instance_dict, class_methods. cbn [existsb].
  rewrite !(eqb_underscore key _ Hu). cbn [orb].
  destruct (String.eqb key "version"); [reflexivity |].
  destruct (String.eqb key "title"); [reflexivity |].
  destruct (String.eqb key "external"); reflexivity.
Qed.

Lemma attribute_lookup_of_conventional_keys_witness :
  re_match CONVENTIONAL_RESOURCE_NAME "title" = true
  /\ getattr (assign_abstract_path (fresh "ns" None (Some "X") false) "a")
       "title"
     = Ok (PyStr "X").
Proof.
  split; [reflexivity |].
  apply (attribute_lookup_of_conventional_keys
           (assign_abstract_path (fresh "ns" None (Some "X") false) "a")
           "title").
  reflexivity.
Defined.

Lemma getitem_path_segments (self : ResourceLocation) (segments : list string) :
  _path_segments self = Ok segments ->
  __getitem__ self "path_segments" = Ok (PyTuple segments).
Proof.
  intros H. unfold __getitem__, getattr, instance_dict. cbn. now rewrite H.
Qed.

Lemma getitem_path (self : ResourceLocation) (segments : list string) :
  _path_segments self = Ok segments ->
  segments <> [] ->
  __getitem__ self "path" = Ok (PyStr (join "/" segments)).
Proof.
  intros H Hne.
  unfold __getitem__, getattr, instance_dict, _path, get_path_segments.
  cbn. rewrite H. cbn. destruct segments; [congruence | reflexivity].
Qed.

(** On a location constructed from [namespace:path], bracket lookup gives
    the parts of the base as they were written (["path"] is the abstract
    path, ["path_segments"] its segments between slashes), and the symbol of
    a conventional key is the namespace, the segments and the key joined by
    dots. *)
Theorem parts_of_a_constructed_location (base : string)
    (version : option version_arg) (title : option string) (external : bool)
    (self : ResourceLocation) (namespace path key : string) :
  __init__ base version title external = Ok self ->
  partition ":" base = (namespace, ":", path) ->
  __getitem__ self "namespace" = Ok (PyStr namespace)
  /\ __getitem__ self "abstract_path" = Ok (PyStr path)
  /\ __getitem__ self "path" = Ok (PyStr path)
  /\ __getitem__ self "path_segments" = Ok (PyTuple (split "/" path))
  /\ (re_match CONVENTIONAL_RESOURCE_NAME key = true ->
      __getattr__ self key
      = Ok (join "." ([namespace] ++ split "/" path ++ [key]))).
Proof.
  intros Hinit Hbase.
  destruct (constructed_segments _ _ _ _ _ _ _ Hinit Hbase) as [-> Hsegs].
  assert (_path_segments
            (assign_abstract_path (fresh namespace version title external) path)
          = Ok (split "/" path)) as Hget.
  { unfold get_path_segments in Hsegs.
    destruct (_path_segments _) as [segs|[]];
      cbn [or_not_found not_found] in Hsegs;
      first [assumption | discriminate Hsegs]. }
  split; [reflexivity |]. split; [reflexivity |]. split; [| split].
  - rewrite (getitem_path _ _ Hget (split_not_nil "/" path)).
    now rewrite join_split.
  - now apply getitem_path_segments.
  - intros Hkey. unfold __getattr__. now rewrite Hkey, Hsegs.
Qed.

Lemma parts_of_a_constructed_location_witness :
  __init__ "ns:a/b" None None false
    = Ok (assign_abstract_path (fresh "ns" None None false) "a/b")
  /\ partition ":" "ns:a/b" = ("ns", ":", "a/b")
  /\ __getitem__ (assign_abstract_path (fresh "ns" None None false) "a/b")
       "namespace" = Ok (PyStr "ns")
  /\ __getitem__ (assign_abstract_path (fresh "ns" None None false) "a/b")
       "abstract_path" = Ok (PyStr "a/b")
  /\ __getitem__ (assign_abstract_path (fresh "ns" None None false) "a/b")
       "path" = Ok (PyStr "a/b")
  /\ __getitem__ (assign_abstract_path (fresh "ns" None None false) "a/b")
       "path_segments" = Ok (PyTuple (split "/" "a/b"))
  /\ (re_match CONVENTIONAL_RESOURCE_NAME "thing" = true ->
      __getattr__ (assign_abstract_path (fresh "ns" None None false) "a/b")
        "thing"
      = Ok (join "." (["ns"] ++ split "/" "a/b" ++ ["thing"]))).
Proof.
  do 2 (split; [reflexivity |]).
  apply (parts_of_a_constructed_location "ns:a/b" None None false
           _ "ns" "a/b" "thing"); reflexivity.
Defined.

End ResourceLocationMore.

(** ** Further properties of the plugin *)

Module BeetPluginMore.

Import PyStr BeetPlugin.

(** The body of the first loop, by the verdict on the path. *)
Lemma read_config_examine (w : World) (p : Path) (st : State) :
  read_config w p st =
    match examine w p with
    | Skipped => (Ok tt, st)
    | Stopped e => (Raise e, st)
    | Loaded config => (Ok tt, set_pack_config p config st)
    end.
Proof.
  unfold read_config, examine, load_config.
  destruct (negb (is_dir w p)); [reflexivity |].
  destruct (negb (valid_path w p)); [reflexivity |].
  destruct (negb (is_file w _)); [reflexivity |].
  now destruct (_ ≫= _).
Qed.

(** The first loop over paths of which none stops it: it ends without an
    exception, has stored the configuration of every path that loads, and
    has left the other entries, the log and the requirements alone. *)
Lemma first_loop_completes (w : World) (rest : list Path) :
  forall st,
    existsb (stops w) rest = false ->
    exists st',
      for_remaining (read_config w) rest st = (Ok tt, st')
      /\ (forall p config,
            In p rest -> examine w p = Loaded config ->
            pack_configs st' !! p = Some config)
      /\ (forall p,
            ~ In p rest \/ examine w p = Skipped ->
            pack_configs st' !! p = pack_configs st !! p).
Proof.
  induction rest as [|p0 rest IH]; intros st Hnone.
  - eexists. split; [reflexivity |]. split; [now intros ? ? [] | reflexivity].
  - cbn [existsb] in Hnone. apply orb_false_iff in Hnone as [Hp0 Hrest].
    cbn [for_remaining]. rewrite read_config_examine.
    unfold stops in Hp0.
    destruct (examine w p0) as [| e | config0] eqn:Hex; [| discriminate |].
    + destruct (IH (set_pack_paths rest st) Hrest) as (st' & -> & Hin & Hout).
      exists st'. split; [reflexivity |]. split.
      * intros p config [<- | Hp] Hl; [congruence | now apply Hin].
      * intros p Hp. rewrite Hout; [reflexivity |].
        destruct Hp as [Hp | Hp]; [left | now right].
        intros Hin'. apply Hp. now right.
    + destruct (IH (set_pack_config p0 config0 (set_pack_paths rest st)) Hrest)
        as (st' & -> & Hin & Hout).
      exists st'. split; [reflexivity |]. split.
      * intros p config [<- | Hp] Hl; [| now apply Hin].
        destruct (in_dec string_dec p0 rest) as [Hin0 | Hout0];
          [now apply Hin |].
        rewrite Hout by now left. cbn [pack_configs set_pack_config].
        rewrite lookup_insert_eq. congruence.
      * intros p Hp.
        assert (p0 <> p) as Hne.
        { intros <-. destruct Hp as [Hp | Hp]; [apply Hp; now left | congruence]. }
        rewrite Hout.
        -- cbn [pack_configs set_pack_config set_pack_paths].
           now rewrite lookup_insert_ne.
        -- destruct Hp as [Hp | Hp]; [left | now right].
           intros Hin'. apply Hp. now right.
Qed.


(** The verdicts, read backwards. *)
Lemma examine_skipped (w : World) (p : Path) :
  examine w p = Skipped <-> is_dir w p = false.
Proof.
  unfold examine. destruct (is_dir w p); cbn [negb]; [| intuition].
  destruct (negb (valid_path w p)); [intuition discriminate |].
  destruct (negb (is_file w _)); [intuition discriminate |].
  destruct (load_config w p); intuition discriminate.
Qed.

Lemma examine_loaded (w : World) (p : Path) (config : Config) :
  examine w p = Loaded config ->
  is_dir w p = true /\ load_config w p = Ok config.
Proof.
  unfold examine. destruct (is_dir w p); cbn [negb]; [| discriminate].
  destruct (negb (valid_path w p)); [discriminate |].
  destruct (negb (is_file w _)); [discriminate |].
  destruct (load_config w p); [| discriminate]. now intros [= ->].
Qed.

(** When no path that [glob] gives stops the first loop, [beet_default]
    ends without an exception, and [pack_configs] then holds exactly the
    packs: every directory among the paths is mapped to what its
    [config.yaml] loads to, and a path that is not a directory, or that
    [glob] did not give, has no entry. *)
Theorem configurations_after_the_first_loop (w : World) (paths : list Path) :
  glob w (pack_pattern w) = Ok paths ->
  existsb (stops w) paths = false ->
  fst (beet_default w) = Ok tt
  /\ (forall p,
        In p paths -> is_dir w p = true ->
        exists config,
          load_config w p = Ok config
          /\ pack_configs (snd (beet_default w)) !! p = Some config)
  /\ (forall p,
        ~ In p paths \/ is_dir w p = false ->
        pack_configs (snd (beet_default w)) !! p = None).
Proof.
  intros Hglob Hnone.
  destruct (first_loop_completes w paths (initial_state paths) Hnone)
    as (st & Hfirst & Hin & Hout).
  assert (beet_default w = (Ok tt, st)) as ->.
  { unfold beet_default, for_pack_paths. rewrite Hglob.
    cbn [pack_paths initial_state]. rewrite Hfirst.
    apply BeetPluginSpec.build_nothing.
    now apply BeetPluginSpec.for_remaining_exhausts in Hfirst. }
  cbn [fst snd]. split; [reflexivity |]. split.
  - intros p Hp Hdir.
    assert (stops w p = false) as Hgo.
    { rewrite <- not_true_iff_false. intros Hs.
      assert (existsb (stops w) paths = true); [| congruence].
      apply existsb_exists. eauto. }
    unfold stops in Hgo. destruct (examine w p) as [| e | config] eqn:Hex;
      [| discriminate |].
    + apply examine_skipped in Hex. congruence.
    + exists config. split; [| now apply Hin].
      now apply examine_loaded in Hex.
  - intros p Hp. rewrite Hout; [reflexivity |].
    destruct Hp as [Hp | Hp]; [now left | right].
    now apply examine_skipped.
Qed.

Lemma configurations_after_the_first_loop_witness :
  glob one_pack (pack_pattern one_pack) = Ok ["datapacks/1.20/graves"]
  /\ existsb (stops one_pack) ["datapacks/1.20/graves"] = false
  /\ fst (beet_default one_pack) = Ok tt
  /\ (forall p,
        In p ["datapacks/1.20/graves"] -> is_dir one_pack p = true ->
        exists config,
          load_config one_pack p = Ok config
          /\ pack_configs (snd (beet_default one_pack)) !! p = Some config)
  /\ (forall p,
        ~ In p ["datapacks/1.20/graves"] \/ is_dir one_pack p = false ->
        pack_configs (snd (beet_default one_pack)) !! p = None).
Proof.
  do 2 (split; [reflexivity |]).
  apply (configurations_after_the_first_loop one_pack
           ["datapacks/1.20/graves"]); reflexivity.
Defined.









End BeetPluginMore.
